(** * Snake (two React variants): a shallow embedding and its properties

    The repository holds two single-component Snake games.  Both keep the
    game data in React state cells and change it from two kinds of
    callbacks: a periodic timer (the tick) and event handlers (keys and
    buttons).  Callbacks run to completion one after the other, so every
    callback is modelled as a function from the state record before it to
    the state record after it.

    Numbers are JavaScript doubles holding small integers (grid
    coordinates, a score, a delay in milliseconds); they are modelled by
    [Z], which agrees with double arithmetic far beyond any value a game
    can reach.

    [Math.random] is modelled by a supply of draws that the sampling loops
    consume from the left: the supply lists the successive values of
    [Math.floor(Math.random() * size)]. *)

From Stdlib Require Import ZArith String Ascii List Bool Lia.
From Stdlib Require Import DecimalString DecimalZ Permutation.
Import ListNotations.
Local Open Scope Z_scope.

(** ** Cells and headings: objects [{x, y}] *)

Record Cell : Type := mkCell { cx : Z; cy : Z }.

(** [p.x === q.x && p.y === q.y] *)
Definition cell_eqb (p q : Cell) : bool :=
  (cx p =? cx q) && (cy p =? cy q).

(** [{ x: head.x + dir.x, y: head.y + dir.y }] *)
Definition cell_add (p d : Cell) : Cell :=
  mkCell (cx p + cx d) (cy p + cy d).

(** The heading pointing the other way. *)
Definition cell_neg (d : Cell) : Cell := mkCell (- cx d) (- cy d).

(** [c.x < 0 || c.x >= size || c.y < 0 || c.y >= size] *)
Definition outside (size : Z) (c : Cell) : bool :=
  (cx c <? 0) || (cx c >=? size) || (cy c <? 0) || (cy c >=? size).

(** The four unit headings. *)
Definition unit_heading (d : Cell) : Prop :=
  d = mkCell 0 (-1) \/ d = mkCell 0 1 \/ d = mkCell (-1) 0 \/ d = mkCell 1 0.

(** ** Outcomes of a callback

    A callback either completes, or throws (reading [.x] of [prev[0]] on an
    empty snake is a TypeError), or is still inside a sampling loop when
    the supply of draws is used up. *)

Inductive outcome (A : Type) : Type :=
| Ok (a : A)
| TypeError
| Spinning.
Arguments Ok {A} a.
Arguments TypeError {A}.
Arguments Spinning {A}.

(** A computation that may consume draws. *)
Definition M (A : Type) : Type := list Z -> outcome (A * list Z).

Definition ret {A} (a : A) : M A := fun rnd => Ok (a, rnd).

Definition throw {A} : M A := fun _ => TypeError.

Definition bind {A B} (m : M A) (k : A -> M B) : M B :=
  fun rnd =>
    match m rnd with
    | Ok (a, rnd') => k a rnd'
    | TypeError => TypeError
    | Spinning => Spinning
    end.

Notation "x <- m ;; k" := (bind m (fun x => k))
  (at level 61, m at next level, right associativity).

(** The draws of a supply, two by two: each round of a sampling loop takes
    one draw for [x] and one for [y]. *)
Fixpoint rounds (rnd : list Z) : list Cell :=
  match rnd with
  | x :: y :: rest => mkCell x y :: rounds rest
  | _ => []
  end.

(** The rejection-sampling loop shared by [randomFood] (variant A) and
    [generateFood] (variant B):
    [do { x = draw; y = draw } while (taken(x, y)); return {x, y}]. *)
Fixpoint sample (taken : Cell -> bool) (rnd : list Z) : outcome (Cell * list Z) :=
  match rnd with
  | x :: y :: rest =>
      if taken (mkCell x y) then sample taken rest else Ok (mkCell x y, rest)
  | _ => Spinning
  end.

(** ** Variant A: walls are lethal, the game speeds up *)

Module SnakeA.

Definition BOARD_SIZE : Z := 20.
Definition START_SNAKE : list Cell := [mkCell 9 10; mkCell 8 10; mkCell 7 10].
Definition START_DIRECTION : Cell := mkCell 1 0.
Definition INITIAL_SPEED : Z := 150.

(** The state cells of the component.  [directionRef.current] is assigned
    [direction] at every render and a render follows every callback, so the
    ref and the state cell hold the same heading whenever a callback
    starts; one field stands for both. *)
Record State : Type := mkState {
  snake : list Cell;
  direction : Cell;
  food : Cell;
  running : bool;
  speed : Z;
  score : Z;
  gameOver : bool
}.

(** [randomFood(excludeCells)]: the set [taken] holds the keys ["x,y"] of
    the excluded cells; two integer cells have the same key exactly when
    they have the same coordinates. *)
Definition randomFood (excludeCells : list Cell) : M Cell :=
  sample (fun c => existsb (cell_eqb c) excludeCells).

(** The object [map] of [handleKey].  A [KeyboardEvent.key] never names a
    property inherited from [Object.prototype], so a key outside the table
    reads [undefined]. *)
Definition keymap (key : string) : option Cell :=
  if (key =? "ArrowUp")%string then Some (mkCell 0 (-1))
  else if (key =? "ArrowDown")%string then Some (mkCell 0 1)
  else if (key =? "ArrowLeft")%string then Some (mkCell (-1) 0)
  else if (key =? "ArrowRight")%string then Some (mkCell 1 0)
  else if (key =? "w")%string then Some (mkCell 0 (-1))
  else if (key =? "s")%string then Some (mkCell 0 1)
  else if (key =? "a")%string then Some (mkCell (-1) 0)
  else if (key =? "d")%string then Some (mkCell 1 0)
  else None.

Definition handleKey (s : State) (key : string) : State :=
  match keymap key with
  | None => s
  | Some newDir =>
      let cur := direction s in
      if (cx cur + cx newDir =? 0) && (cy cur + cy newDir =? 0) then s
      else mkState (snake s) newDir (food s) (running s) (speed s) (score s)
                   (gameOver s)
  end.

(** What the two collision branches of the tick leave behind:
    [setGameOver(true); setRunning(false); return prev]. *)
Definition crashed (s : State) : State :=
  mkState (snake s) (direction s) (food s) false (speed s) (score s) true.

(** One firing of the interval.  The interval exists only while [running]
    holds and [gameOver] does not. *)
Definition tick (s : State) : M State :=
  if negb (running s) then ret s
  else if gameOver s then ret s
  else
    match snake s with
    | [] => throw
    | head :: _ =>
        let prev := snake s in
        let newHead := cell_add head (direction s) in
        if outside BOARD_SIZE newHead then ret (crashed s)
        else if existsb (fun p => cell_eqb p newHead) prev then ret (crashed s)
        else
          let ate := cell_eqb newHead (food s) in
          let newSnake := newHead :: prev in
          if negb ate then
            ret (mkState (removelast newSnake) (direction s) (food s)
                         (running s) (speed s) (score s) (gameOver s))
          else
            newFood <- randomFood newSnake ;;
            ret (mkState newSnake (direction s) newFood (running s)
                         (Z.max 40 (speed s - 4)) (score s + 1) (gameOver s))
    end.

Definition start (s : State) : M State :=
  newFood <- randomFood START_SNAKE ;;
  ret (mkState START_SNAKE START_DIRECTION newFood true INITIAL_SPEED 0 false).

Definition pause (s : State) : State :=
  mkState (snake s) (direction s) (food s) false (speed s) (score s)
          (gameOver s).

Definition resume (s : State) : State :=
  if negb (gameOver s) then
    mkState (snake s) (direction s) (food s) true (speed s) (score s)
            (gameOver s)
  else s.

Definition restart (s : State) : M State := start s.

(** The anonymous handler of the Reset button. *)
Definition reset (s : State) : M State :=
  newFood <- randomFood START_SNAKE ;;
  ret (mkState START_SNAKE START_DIRECTION newFood false INITIAL_SPEED 0 false).

(** The handlers of the Faster and Slower buttons. *)
Definition faster (s : State) : State :=
  mkState (snake s) (direction s) (food s) (running s)
          (Z.max 40 (speed s - 20)) (score s) (gameOver s).

Definition slower (s : State) : State :=
  mkState (snake s) (direction s) (food s) (running s)
          (Z.min 1000 (speed s + 20)) (score s) (gameOver s).

(** The state of the first render. *)
Definition init : M State :=
  newFood <- randomFood START_SNAKE ;;
  ret (mkState START_SNAKE START_DIRECTION newFood false INITIAL_SPEED 0 false).

(** Everything that can happen to the component. *)
Inductive Event : Type :=
| Key (key : string)
| Tick
| Start
| Pause
| Resume
| Restart
| Reset
| Faster
| Slower.

Definition step (s : State) (e : Event) : M State :=
  match e with
  | Key key => ret (handleKey s key)
  | Tick => tick s
  | Start => start s
  | Pause => ret (pause s)
  | Resume => ret (resume s)
  | Restart => restart s
  | Reset => reset s
  | Faster => ret (faster s)
  | Slower => ret (slower s)
  end.

Fixpoint run (s : State) (evs : list Event) : M State :=
  match evs with
  | [] => ret s
  | e :: evs' => s' <- step s e ;; run s' evs'
  end.

(** The events that reinitialise the game. *)
Definition is_reset (e : Event) : bool :=
  match e with
  | Start | Restart | Reset => true
  | _ => false
  end.

(** The tick moves the snake only in this status. *)
Definition isRunning (s : State) : bool := running s && negb (gameOver s).

(** The heading a tick applies in state [s], when it moves at all. *)
Definition applies (s : State) : list Cell :=
  if isRunning s then
    match snake s with
    | [] => []
    | _ :: _ => [direction s]
    end
  else [].

(** The headings applied by the ticks of a run, oldest first. *)
Fixpoint headings (s : State) (evs : list Event) (rnd : list Z) : list Cell :=
  match evs with
  | [] => []
  | e :: evs' =>
      (match e with Tick => applies s | _ => [] end) ++
      match step s e rnd with
      | Ok (s', rnd') => headings s' evs' rnd'
      | _ => []
      end
  end.

End SnakeA.

(** ** Variant B: selectable wall mode, constant speed *)

Module SnakeB.

Definition GRID_SIZE : Z := 20.
Definition INITIAL_SNAKE : list Cell := [mkCell 10 10].
Definition INITIAL_DIRECTION : Cell := mkCell 1 0.
Definition INITIAL_SPEED : Z := 150.

(** The two values the [wallMode] cell ever holds. *)
Inductive WallMode : Type := wall | passthrough.

Record State : Type := mkState {
  snake : list Cell;
  direction : Cell;
  food : Cell;
  gameOver : bool;
  score : Z;
  isPaused : bool;
  gameStarted : bool;
  wallMode : WallMode
}.

(** The interval is always armed with [INITIAL_SPEED]: this variant has no
    speed cell. *)
Definition speed (s : State) : Z := INITIAL_SPEED.

(** [generateFood] is memoised on the rendered [snake] and samples against
    that list. *)
Definition generateFood (snake : list Cell) : M Cell :=
  sample (fun newFood => existsb (fun segment => cell_eqb segment newFood) snake).

Definition resetGame (s : State) : State :=
  mkState INITIAL_SNAKE INITIAL_DIRECTION (mkCell 15 15) false 0 false true
          (wallMode s).

Definition toggleWallMode (s : State) : State :=
  if negb (gameStarted s) || gameOver s then
    mkState (snake s) (direction s) (food s) (gameOver s) (score s)
            (isPaused s) (gameStarted s)
            (match wallMode s with wall => passthrough | passthrough => wall end)
  else s.

(** The pass-through block of [moveSnake], one axis: two [if]s in a row. *)
Definition wrap (v : Z) : Z :=
  let v1 := if v <? 0 then GRID_SIZE - 1 else v in
  if v1 >=? GRID_SIZE then 0 else v1.

(** [setGameOver(true); return prevSnake]. *)
Definition crashed (s : State) : State :=
  mkState (snake s) (direction s) (food s) true (score s) (isPaused s)
          (gameStarted s) (wallMode s).

(** The part of [moveSnake] after the wall handling.  [generateFood] is
    the callback of the last render: it closes over the snake of the state
    the tick starts from, not over [newSnake]. *)
Definition moveTo (s : State) (newHead : Cell) : M State :=
  let prevSnake := snake s in
  if existsb (fun segment => cell_eqb segment newHead) prevSnake then
    ret (crashed s)
  else
    let newSnake := newHead :: prevSnake in
    if cell_eqb newHead (food s) then
      newFood <- generateFood (snake s) ;;
      ret (mkState newSnake (direction s) newFood (gameOver s) (score s + 10)
                   (isPaused s) (gameStarted s) (wallMode s))
    else
      ret (mkState (removelast newSnake) (direction s) (food s) (gameOver s)
                   (score s) (isPaused s) (gameStarted s) (wallMode s)).

(** The head [moveSnake] tries, after the wrap of the pass-through mode. *)
Definition candidate (s : State) (head : Cell) : Cell :=
  let newHead := cell_add head (direction s) in
  match wallMode s with
  | wall => newHead
  | passthrough => mkCell (wrap (cx newHead)) (wrap (cy newHead))
  end.

Definition moveSnake (s : State) : M State :=
  if gameOver s || isPaused s || negb (gameStarted s) then ret s
  else
    match snake s with
    | [] => throw
    | head :: _ =>
        let newHead := cell_add head (direction s) in
        match wallMode s with
        | wall =>
            if outside GRID_SIZE newHead then ret (crashed s)
            else moveTo s newHead
        | passthrough =>
            moveTo s (mkCell (wrap (cx newHead)) (wrap (cy newHead)))
        end
    end.

(** The heading an arrow key asks for: the object built in its [case]. *)
Definition keyHeading (key : string) : option Cell :=
  if (key =? "ArrowUp")%string then Some (mkCell 0 (-1))
  else if (key =? "ArrowDown")%string then Some (mkCell 0 1)
  else if (key =? "ArrowLeft")%string then Some (mkCell (-1) 0)
  else if (key =? "ArrowRight")%string then Some (mkCell 1 0)
  else None.

(** The updater passed to [setDirection]. *)
Definition turn (key : string) (prev : Cell) : Cell :=
  if (key =? "ArrowUp")%string then
    if negb (cy prev =? 1) then mkCell 0 (-1) else prev
  else if (key =? "ArrowDown")%string then
    if negb (cy prev =? -1) then mkCell 0 1 else prev
  else if (key =? "ArrowLeft")%string then
    if negb (cx prev =? 1) then mkCell (-1) 0 else prev
  else if (key =? "ArrowRight")%string then
    if negb (cx prev =? -1) then mkCell 1 0 else prev
  else prev.

Definition handleKeyPress (s : State) (key : string) : State :=
  let started :=
    if negb (gameStarted s) && String.prefix "Arrow" key then true
    else gameStarted s in
  if (key =? " ")%string then
    mkState (snake s) (direction s) (food s) (gameOver s) (score s)
            (negb (isPaused s)) started (wallMode s)
  else
    mkState (snake s) (turn key (direction s)) (food s) (gameOver s) (score s)
            (isPaused s) started (wallMode s).

(** The state of the first render. *)
Definition init : State :=
  mkState INITIAL_SNAKE INITIAL_DIRECTION (mkCell 15 15) false 0 false false
          wall.

Inductive Event : Type :=
| Key (key : string)
| Tick
| PlayAgain
| ToggleWall.

Definition step (s : State) (e : Event) : M State :=
  match e with
  | Key key => ret (handleKeyPress s key)
  | Tick => moveSnake s
  | PlayAgain => ret (resetGame s)
  | ToggleWall => ret (toggleWallMode s)
  end.

Fixpoint run (s : State) (evs : list Event) : M State :=
  match evs with
  | [] => ret s
  | e :: evs' => s' <- step s e ;; run s' evs'
  end.

Definition is_reset (e : Event) : bool :=
  match e with
  | PlayAgain => true
  | _ => false
  end.

(** The status the view shows: the start overlay while [gameStarted] is
    false, then the game-over overlay, then the pause overlay. *)
Inductive Status : Type := NotStarted | Running | Paused | GameOver.

Definition status (s : State) : Status :=
  if negb (gameStarted s) then NotStarted
  else if gameOver s then GameOver
  else if isPaused s then Paused
  else Running.

(** The heading a tick applies in state [s], when it moves at all. *)
Definition applies (s : State) : list Cell :=
  if gameOver s || isPaused s || negb (gameStarted s) then []
  else
    match snake s with
    | [] => []
    | _ :: _ => [direction s]
    end.

Fixpoint headings (s : State) (evs : list Event) (rnd : list Z) : list Cell :=
  match evs with
  | [] => []
  | e :: evs' =>
      (match e with Tick => applies s | _ => [] end) ++
      match step s e rnd with
      | Ok (s', rnd') => headings s' evs' rnd'
      | _ => []
      end
  end.

(** The states a game can be in. *)
Inductive reachable : State -> Prop :=
| reach_init : reachable init
| reach_step s e rnd s' rnd' :
    reachable s -> step s e rnd = Ok (s', rnd') -> reachable s'.

End SnakeB.

(** ** Reversals in a list of applied headings *)

(** Some heading of the list is the exact reverse of the one before it. *)
Fixpoint reverses (hs : list Cell) : bool :=
  match hs with
  | d1 :: ((d2 :: _) as rest) => cell_eqb d2 (cell_neg d1) || reverses rest
  | _ => false
  end.

(** ** What every reachable state of variant B satisfies

    The heading is a unit heading and the head of the snake is on the
    grid. *)
Definition wellformedB (s : SnakeB.State) : Prop :=
  unit_heading (SnakeB.direction s) /\
  exists h t, SnakeB.snake s = h :: t /\ outside SnakeB.GRID_SIZE h = false.

(** ** Grids and supplies *)

(** A cell of the [size] by [size] grid. *)
Definition on_grid (size : Z) (c : Cell) : Prop :=
  0 <= cx c < size /\ 0 <= cy c < size.

(** [0, 1, ..., n - 1]: the values of a counting [for] loop. *)
Definition range (n : Z) : list Z := map Z.of_nat (seq 0 (Z.to_nat n)).

(** The cells of the grid, row by row. *)
Definition gridCells (size : Z) : list Cell :=
  flat_map (fun y => map (fun x => mkCell x y) (range size)) (range size).

(** A supply as [Math.floor(Math.random() * size)] produces it: every draw
    is an integer of [0, size). *)
Definition fair (size : Z) (rnd : list Z) : Prop :=
  Forall (fun r => 0 <= r < size) rnd.

(** [l] has no two equal cells, as a test. *)
Fixpoint distinct (l : list Cell) : bool :=
  match l with
  | [] => true
  | c :: l' => negb (existsb (cell_eqb c) l') && distinct l'
  end.

(** ** The string keys of variant A *)

(** [`${n}`] for an integer [n]: its decimal digits, with a minus sign
    when it is negative. *)
Definition decimal (n : Z) : string := NilEmpty.string_of_int (Z.to_int n).

(** [`${c.x},${c.y}`] *)
Definition cellKey (c : Cell) : string :=
  (decimal (cx c) ++ "," ++ decimal (cy c))%string.

(** No character of the string is a comma. *)
Fixpoint comma_free (s : string) : Prop :=
  match s with
  | EmptyString => True
  | String a s' => a <> ","%char /\ comma_free s'
  end.

(** [randomFood] as it is written: [taken] is the set of the keys of the
    excluded cells and the loop goes on while [taken.has(key)].  Only
    membership is asked of the set, so the list of keys stands for it. *)
Definition randomFoodKeys (excludeCells : list Cell) : M Cell :=
  let taken := map cellKey excludeCells in
  sample (fun c => existsb (String.eqb (cellKey c)) taken).

(** ** The view of variant A *)

(** The objects pushed on [cells]. *)
Record Tile : Type := mkTile {
  tile_x : Z;
  tile_y : Z;
  isSnake : bool;
  isHead : bool;
  isFood : bool;
  tile_key : string
}.

(** One round of the inner loop of the render helper.  [snake[0] && ...]
    is [undefined] for an empty snake, which the class names read as
    false. *)
Definition tileAt (s : SnakeA.State) (x y : Z) : Tile :=
  let snakeSet := map cellKey (SnakeA.snake s) in
  let key := cellKey (mkCell x y) in
  mkTile x y
         (existsb (String.eqb key) snakeSet)
         (match SnakeA.snake s with
          | [] => false
          | head :: _ => (cx head =? x) && (cy head =? y)
          end)
         ((cx (SnakeA.food s) =? x) && (cy (SnakeA.food s) =? y))
         key.

(** The render helper: [for y ... for x ... cells.push(...)]. *)
Definition cells (s : SnakeA.State) : list Tile :=
  flat_map (fun y => map (fun x => tileAt s x y) (range SnakeA.BOARD_SIZE))
           (range SnakeA.BOARD_SIZE).

(** The buttons the view renders, named by the event of their click. *)
Definition buttons (s : SnakeA.State) : list SnakeA.Event :=
  (if negb (SnakeA.running s) && negb (SnakeA.gameOver s) then [SnakeA.Start] else []) ++
  (if SnakeA.running s then [SnakeA.Pause] else []) ++
  (if negb (SnakeA.running s) && negb (SnakeA.gameOver s) then [SnakeA.Resume] else []) ++
  (if SnakeA.gameOver s then [SnakeA.Restart] else []) ++
  [SnakeA.Reset; SnakeA.Faster; SnakeA.Slower].

(** ** The view of variant B *)

(** The [disabled] attribute of the two wall-mode buttons. *)
Definition wallButtonsDisabled (s : SnakeB.State) : bool :=
  SnakeB.gameStarted s && negb (SnakeB.gameOver s).

(** The overlays drawn over the board. *)
Inductive Overlay : Type := PressArrowOverlay | GameOverOverlay | PausedOverlay.

Definition overlays (s : SnakeB.State) : list Overlay :=
  (if negb (SnakeB.gameStarted s) then [PressArrowOverlay] else []) ++
  (if SnakeB.gameOver s then [GameOverOverlay] else []) ++
  (if SnakeB.isPaused s && negb (SnakeB.gameOver s) && SnakeB.gameStarted s
   then [PausedOverlay] else []).

(** ** The states of variant A a game can be in *)

Inductive reachableA : SnakeA.State -> Prop :=
| reachA_init rnd s rnd' :
    SnakeA.init rnd = Ok (s, rnd') -> reachableA s
| reachA_step s e rnd s' rnd' :
    reachableA s -> SnakeA.step s e rnd = Ok (s', rnd') -> reachableA s'.

(** What every reachable state of variant A satisfies. *)
Definition wellformedA (s : SnakeA.State) : Prop :=
  unit_heading (SnakeA.direction s) /\
  NoDup (SnakeA.snake s) /\
  Forall (on_grid SnakeA.BOARD_SIZE) (SnakeA.snake s) /\
  ~ In (SnakeA.food s) (SnakeA.snake s) /\
  0 <= SnakeA.score s /\
  Z.of_nat (length (SnakeA.snake s)) = SnakeA.score s + 3 /\
  SnakeA.running s && SnakeA.gameOver s = false.

(** What every reachable state of variant B satisfies, beside
    [wellformedB]. *)
Definition soundB (s : SnakeB.State) : Prop :=
  NoDup (SnakeB.snake s) /\
  Forall (on_grid SnakeB.GRID_SIZE) (SnakeB.snake s) /\
  0 <= SnakeB.score s /\
  10 * Z.of_nat (length (SnakeB.snake s)) = SnakeB.score s + 10 /\
  (SnakeB.gameOver s = true -> SnakeB.gameStarted s = true).

(** ** The snake as a chain *)

(** Every cell of the list is one [step] ahead of the cell behind it. *)
Fixpoint linked (step : Cell -> Cell -> Prop) (l : list Cell) : Prop :=
  match l with
  | a :: ((b :: _) as l') => step b a /\ linked step l'
  | _ => True
  end.

(** [a] is one unit step away from [b]. *)
Definition stepsTo (b a : Cell) : Prop :=
  exists d, unit_heading d /\ a = cell_add b d.

(** [a] is one unit step away from [b] on the grid closed into a torus. *)
Definition stepsAround (size : Z) (b a : Cell) : Prop :=
  exists d, unit_heading d /\
            a = mkCell ((cx b + cx d) mod size) ((cy b + cy d) mod size).

(** * Properties *)

(** ** Cells *)

Lemma cell_eqb_eq (p q : Cell) : cell_eqb p q = true <-> p = q.
Proof.
  destruct p as [px py], q as [qx qy]; unfold cell_eqb; simpl.
  rewrite andb_true_iff, !Z.eqb_eq.
  split.
  - intros [-> ->]; reflexivity.
  - intros H; injection H; auto.
Qed.

Lemma cell_eqb_refl (p : Cell) : cell_eqb p p = true.
Proof. apply cell_eqb_eq; reflexivity. Qed.

Lemma cell_eqb_sym (p q : Cell) : cell_eqb p q = cell_eqb q p.
Proof. unfold cell_eqb; rewrite (Z.eqb_sym (cx p)), (Z.eqb_sym (cy p)); reflexivity. Qed.

(** [l.some(p => p is c)] says that [c] is one of the cells of [l]. *)
Lemma some_In (c : Cell) (l : list Cell) :
  existsb (fun p => cell_eqb p c) l = true <-> In c l.
Proof.
  rewrite existsb_exists; split.
  - intros [p [Hin Heq]]; apply cell_eqb_eq in Heq; subst; assumption.
  - intros Hin; exists c; split; [assumption | apply cell_eqb_refl].
Qed.

Lemma some_not_In (c : Cell) (l : list Cell) :
  existsb (fun p => cell_eqb p c) l = false <-> ~ In c l.
Proof.
  rewrite <- some_In; destruct (existsb _ l); split; congruence.
Qed.

Lemma has_In (c : Cell) (l : list Cell) :
  existsb (cell_eqb c) l = true <-> In c l.
Proof.
  rewrite existsb_exists; split.
  - intros [p [Hin Heq]]; apply cell_eqb_eq in Heq; subst; assumption.
  - intros Hin; exists c; split; [assumption | apply cell_eqb_refl].
Qed.

Lemma has_not_In (c : Cell) (l : list Cell) :
  existsb (cell_eqb c) l = false <-> ~ In c l.
Proof.
  rewrite <- has_In; destruct (existsb _ l); split; congruence.
Qed.

(** ** The sampling loop *)

Section Sampling.

Variable taken : Cell -> bool.

(** Lists seen two elements at a time. *)
Lemma rounds_ind (P : list Z -> Prop) :
  P [] -> (forall x, P [x]) ->
  (forall x y rest, P rest -> P (x :: y :: rest)) ->
  forall rnd, P rnd.
Proof.
  intros Hnil Hone Hstep rnd.
  assert (H : P rnd /\ forall x, P (x :: rnd)).
  { induction rnd as [|y rest [IH1 IH2]].
    - split; [exact Hnil | exact Hone].
    - split; [apply IH2 | intros x; apply Hstep; exact IH1]. }
  exact (proj1 H).
Qed.

(** The loop never throws. *)
Lemma sample_no_throw (rnd : list Z) : sample taken rnd <> TypeError.
Proof.
  induction rnd as [| x | x y rest IH] using rounds_ind; simpl; try discriminate.
  destruct (taken (mkCell x y)); [exact IH | discriminate].
Qed.

(** What the loop returns is a cell it drew and that is not taken. *)
Lemma sample_free (rnd : list Z) (c : Cell) (rest : list Z) :
  sample taken rnd = Ok (c, rest) -> taken c = false /\ In c (rounds rnd).
Proof.
  induction rnd as [| x | x y rnd' IH] using rounds_ind; simpl; try discriminate.
  destruct (taken (mkCell x y)) eqn:Ht.
  - intros H; destruct (IH H); auto.
  - intros H; injection H as <- _; auto.
Qed.

(** The loop returns as soon as the supply holds a round that is free. *)
Lemma sample_returns (rnd : list Z) :
  (exists c, In c (rounds rnd) /\ taken c = false) ->
  exists c rest, sample taken rnd = Ok (c, rest).
Proof.
  induction rnd as [| x | x y rnd' IH] using rounds_ind; simpl.
  - intros [c [[] _]].
  - intros [c [[] _]].
  - intros [c [Hin Hfree]].
    destruct (taken (mkCell x y)) eqn:Ht.
    + apply IH; exists c; split; [| assumption].
      destruct Hin as [<- |]; [congruence | assumption].
    + eauto.
Qed.

(** Without a free round the loop is still running when the supply ends. *)
Lemma sample_spins (rnd : list Z) :
  (forall c, In c (rounds rnd) -> taken c = true) ->
  sample taken rnd = Spinning.
Proof.
  induction rnd as [| x | x y rnd' IH] using rounds_ind; simpl; try reflexivity.
  intros H; rewrite (H (mkCell x y)) by auto.
  apply IH; intros c Hc; apply H; auto.
Qed.

End Sampling.

(** ** Removing the tail *)

Lemma removelast_length (h : Cell) (t : list Cell) :
  length (removelast (h :: t)) = length t.
Proof.
  revert h; induction t as [|a t IH]; intros h; [reflexivity |].
  change (removelast (h :: a :: t)) with (h :: removelast (a :: t)).
  cbn [length]; rewrite IH; reflexivity.
Qed.

(** Every cell but the last keeps its place when the tail is removed. *)
Lemma removelast_nth (l : list Cell) (i : nat) :
  (S i < length l)%nat -> nth_error (removelast l) i = nth_error l i.
Proof.
  revert i; induction l as [|a l IH]; intros i Hi; [simpl in Hi; lia |].
  destruct l as [|b l]; [simpl in Hi; lia |].
  change (removelast (a :: b :: l)) with (a :: removelast (b :: l)).
  destruct i as [|i]; [reflexivity |].
  cbn [nth_error]; apply IH; cbn [length] in *; lia.
Qed.

(** ** Variant A: the branches of the tick *)

Section TickA.

Import SnakeA.

Variables (s : State) (h : Cell) (t : list Cell).
Hypothesis Hrun : isRunning s = true.
Hypothesis Hsnake : snake s = h :: t.

Let newHead := cell_add h (direction s).

Lemma isRunning_flags : running s = true /\ gameOver s = false.
Proof.
  unfold isRunning in Hrun; apply andb_true_iff in Hrun.
  destruct Hrun as [H1 H2]; apply negb_true_iff in H2; auto.
Qed.

Lemma tickA_wall (rnd : list Z) :
  outside BOARD_SIZE newHead = true -> tick s rnd = Ok (crashed s, rnd).
Proof.
  intros Hout; destruct isRunning_flags as [Hr Hg].
  unfold tick; rewrite Hr, Hg, Hsnake; simpl negb; cbv iota.
  fold newHead; rewrite Hout; reflexivity.
Qed.

Lemma tickA_self (rnd : list Z) :
  In newHead (snake s) -> tick s rnd = Ok (crashed s, rnd).
Proof.
  intros Hin; destruct isRunning_flags as [Hr Hg].
  destruct (outside BOARD_SIZE newHead) eqn:Hout; [apply tickA_wall; assumption |].
  apply some_In in Hin; rewrite Hsnake in Hin.
  unfold tick; rewrite Hr, Hg, Hsnake; simpl negb; cbv iota.
  fold newHead; rewrite Hout, Hin; reflexivity.
Qed.

Lemma tickA_move (rnd : list Z) :
  outside BOARD_SIZE newHead = false -> ~ In newHead (snake s) ->
  newHead <> food s ->
  tick s rnd =
    Ok (mkState (newHead :: removelast (snake s)) (direction s) (food s)
                (running s) (speed s) (score s) (gameOver s), rnd).
Proof.
  intros Hout Hin Hfood; destruct isRunning_flags as [Hr Hg].
  apply some_not_In in Hin; rewrite Hsnake in Hin.
  assert (Hne : cell_eqb newHead (food s) = false).
  { destruct (cell_eqb newHead (food s)) eqn:E; [| reflexivity].
    apply cell_eqb_eq in E; contradiction. }
  unfold tick; rewrite Hr, Hg, Hsnake; simpl negb; cbv iota.
  fold newHead; rewrite Hout, Hin, Hne; reflexivity.
Qed.

Lemma tickA_eat (rnd : list Z) :
  outside BOARD_SIZE newHead = false -> ~ In newHead (snake s) ->
  newHead = food s ->
  tick s rnd =
    (newFood <- randomFood (newHead :: snake s) ;;
     ret (mkState (newHead :: snake s) (direction s) newFood (running s)
                  (Z.max 40 (speed s - 4)) (score s + 1) (gameOver s))) rnd.
Proof.
  intros Hout Hin Hfood; destruct isRunning_flags as [Hr Hg].
  apply some_not_In in Hin; rewrite Hsnake in Hin.
  assert (Heq : cell_eqb newHead (food s) = true) by (apply cell_eqb_eq; assumption).
  unfold tick; rewrite Hr, Hg, Hsnake; simpl negb; cbv iota.
  fold newHead; rewrite Hout, Hin, Heq; reflexivity.
Qed.

End TickA.

Lemma tickA_idle (s : SnakeA.State) (rnd : list Z) :
  SnakeA.isRunning s = false -> SnakeA.tick s rnd = Ok (s, rnd).
Proof.
  unfold SnakeA.isRunning, SnakeA.tick.
  destruct (SnakeA.running s), (SnakeA.gameOver s); simpl; intros H;
    try discriminate; reflexivity.
Qed.

(** ** Variant B: the branches of the tick *)

Lemma statusB_running (s : SnakeB.State) :
  SnakeB.status s = SnakeB.Running <->
  SnakeB.gameOver s || SnakeB.isPaused s || negb (SnakeB.gameStarted s) = false.
Proof.
  unfold SnakeB.status.
  destruct (SnakeB.gameStarted s), (SnakeB.gameOver s), (SnakeB.isPaused s);
    simpl; split; congruence.
Qed.

Lemma moveSnake_idle (s : SnakeB.State) (rnd : list Z) :
  SnakeB.status s <> SnakeB.Running -> SnakeB.moveSnake s rnd = Ok (s, rnd).
Proof.
  intros H; unfold SnakeB.moveSnake.
  destruct (SnakeB.gameOver s || SnakeB.isPaused s || negb (SnakeB.gameStarted s))
    eqn:E; [reflexivity |].
  apply statusB_running in E; contradiction.
Qed.

Section TickB.

Import SnakeB.

Variables (s : State) (h : Cell) (t : list Cell).
Hypothesis Hrun : status s = Running.
Hypothesis Hsnake : snake s = h :: t.

Let newHead := candidate s h.

(** After the status guard and the wall handling, [moveSnake] goes on with
    the candidate head, unless the wall mode is [wall] and the candidate
    is off the grid. *)
Lemma moveSnake_candidate (rnd : list Z) :
  moveSnake s rnd =
    if match wallMode s with wall => outside GRID_SIZE newHead | passthrough => false end
    then Ok (crashed s, rnd)
    else moveTo s newHead rnd.
Proof.
  apply statusB_running in Hrun.
  unfold moveSnake, newHead, candidate; rewrite Hrun, Hsnake.
  destruct (wallMode s); [| reflexivity].
  destruct (outside GRID_SIZE (cell_add h (direction s))); reflexivity.
Qed.

Lemma moveSnake_wall (rnd : list Z) :
  wallMode s = wall -> outside GRID_SIZE newHead = true ->
  moveSnake s rnd = Ok (crashed s, rnd).
Proof.
  intros Hw Hout; rewrite moveSnake_candidate, Hw, Hout; reflexivity.
Qed.

Lemma moveSnake_self (rnd : list Z) :
  In newHead (snake s) -> moveSnake s rnd = Ok (crashed s, rnd).
Proof.
  intros Hin; rewrite moveSnake_candidate.
  destruct (match wallMode s with wall => _ | passthrough => _ end); [reflexivity |].
  apply some_In in Hin; unfold moveTo; rewrite Hin; reflexivity.
Qed.

Lemma moveSnake_move (rnd : list Z) :
  (wallMode s = wall -> outside GRID_SIZE newHead = false) ->
  ~ In newHead (snake s) -> newHead <> food s ->
  moveSnake s rnd =
    Ok (mkState (newHead :: removelast (snake s)) (direction s) (food s)
                (gameOver s) (score s) (isPaused s) (gameStarted s)
                (wallMode s), rnd).
Proof.
  intros Hout Hin Hfood; rewrite moveSnake_candidate.
  assert (Hw : match wallMode s with
               | wall => outside GRID_SIZE newHead
               | passthrough => false
               end = false) by (destruct (wallMode s); auto).
  rewrite Hw; apply some_not_In in Hin.
  assert (Hne : cell_eqb newHead (food s) = false).
  { destruct (cell_eqb newHead (food s)) eqn:E; [| reflexivity].
    apply cell_eqb_eq in E; contradiction. }
  unfold moveTo; rewrite Hin, Hne, Hsnake; reflexivity.
Qed.

Lemma moveSnake_eat (rnd : list Z) :
  (wallMode s = wall -> outside GRID_SIZE newHead = false) ->
  ~ In newHead (snake s) -> newHead = food s ->
  moveSnake s rnd =
    (newFood <- generateFood (snake s) ;;
     ret (mkState (newHead :: snake s) (direction s) newFood (gameOver s)
                  (score s + 10) (isPaused s) (gameStarted s) (wallMode s))) rnd.
Proof.
  intros Hout Hin Hfood; rewrite moveSnake_candidate.
  assert (Hw : match wallMode s with
               | wall => outside GRID_SIZE newHead
               | passthrough => false
               end = false) by (destruct (wallMode s); auto).
  rewrite Hw; apply some_not_In in Hin.
  assert (Heq : cell_eqb newHead (food s) = true) by (apply cell_eqb_eq; assumption).
  unfold moveTo; rewrite Hin, Heq; reflexivity.
Qed.

End TickB.

(** ** Eating *)

(** Variant A, the eating tick: the snake grows by the candidate head, the
    score goes up by one, the delay goes down by four (not below 40), and
    the new food is sampled against the grown snake, so it misses it.  The
    tick returns as soon as the supply holds a round that is free. *)
Lemma tickA_eats (s : SnakeA.State) (h : Cell) (t : list Cell) (rnd : list Z) :
  SnakeA.isRunning s = true -> SnakeA.snake s = h :: t ->
  let newHead := cell_add h (SnakeA.direction s) in
  outside SnakeA.BOARD_SIZE newHead = false -> ~ In newHead (SnakeA.snake s) ->
  newHead = SnakeA.food s ->
  (exists c, In c (rounds rnd) /\ ~ In c (newHead :: SnakeA.snake s)) ->
  exists s' rest,
    SnakeA.tick s rnd = Ok (s', rest) /\
    SnakeA.snake s' = newHead :: SnakeA.snake s /\
    length (SnakeA.snake s') = S (length (SnakeA.snake s)) /\
    SnakeA.score s' = SnakeA.score s + 1 /\
    SnakeA.speed s' = Z.max 40 (SnakeA.speed s - 4) /\
    ~ In (SnakeA.food s') (SnakeA.snake s').
Proof.
  intros Hrun Hsnake newHead Hout Hin Hfood [c [Hc Hfree]].
  rewrite (tickA_eat s h t Hrun Hsnake rnd Hout Hin Hfood).
  fold newHead; unfold bind, SnakeA.randomFood.
  destruct (sample_returns (fun c => existsb (cell_eqb c) (newHead :: SnakeA.snake s)) rnd)
    as [c' [rest Hs]].
  { exists c; split; [assumption | apply has_not_In; assumption]. }
  rewrite Hs; apply sample_free in Hs; destruct Hs as [Hs _].
  apply has_not_In in Hs.
  eexists; eexists; split; [reflexivity |]; simpl; auto.
Qed.

(** Variant B, the eating tick: same growth, ten points, and a new food
    that misses the snake as it was before the tick. *)
Lemma moveSnake_eats (s : SnakeB.State) (h : Cell) (t : list Cell) (rnd : list Z) :
  SnakeB.status s = SnakeB.Running -> SnakeB.snake s = h :: t ->
  let newHead := SnakeB.candidate s h in
  (SnakeB.wallMode s = SnakeB.wall -> outside SnakeB.GRID_SIZE newHead = false) ->
  ~ In newHead (SnakeB.snake s) -> newHead = SnakeB.food s ->
  (exists c, In c (rounds rnd) /\ ~ In c (SnakeB.snake s)) ->
  exists s' rest,
    SnakeB.moveSnake s rnd = Ok (s', rest) /\
    SnakeB.snake s' = newHead :: SnakeB.snake s /\
    length (SnakeB.snake s') = S (length (SnakeB.snake s)) /\
    SnakeB.score s' = SnakeB.score s + 10 /\
    ~ In (SnakeB.food s') (SnakeB.snake s).
Proof.
  intros Hrun Hsnake newHead Hout Hin Hfood [c [Hc Hfree]].
  rewrite (moveSnake_eat s h t Hrun Hsnake rnd Hout Hin Hfood).
  fold newHead; unfold bind, SnakeB.generateFood.
  destruct (sample_returns
              (fun f => existsb (fun segment => cell_eqb segment f) (SnakeB.snake s)) rnd)
    as [c' [rest Hs]].
  { exists c; split; [assumption | apply some_not_In; assumption]. }
  rewrite Hs; apply sample_free in Hs; destruct Hs as [Hs _].
  apply some_not_In in Hs.
  eexists; eexists; split; [reflexivity |]; simpl; auto.
Qed.

(** C1 (variant B breaks it).  A game of variant B played from the first
    render: an arrow key starts it, the snake runs right to column 15 and
    down to row 14, the food lies at (15,15).  In this running state the
    candidate head is the food cell.  The tick grows the snake and adds the
    reward, but [generateFood] samples against the snake of before the
    tick: when it draws (15,15) it accepts it, and the new food lies on the
    head of the grown snake. *)
Theorem moveSnake_food_on_grown_snake :
  let s := SnakeB.mkState [mkCell 15 14] (mkCell 0 1) (mkCell 15 15) false 0
                          false true SnakeB.wall in
  let s' := SnakeB.mkState [mkCell 15 15; mkCell 15 14] (mkCell 0 1)
                           (mkCell 15 15) false 10 false true SnakeB.wall in
  SnakeB.run SnakeB.init
    [SnakeB.Key "ArrowRight"; SnakeB.Tick; SnakeB.Tick; SnakeB.Tick;
     SnakeB.Tick; SnakeB.Tick; SnakeB.Key "ArrowDown"; SnakeB.Tick;
     SnakeB.Tick; SnakeB.Tick; SnakeB.Tick] [] = Ok (s, []) /\
  SnakeB.status s = SnakeB.Running /\
  SnakeB.candidate s (mkCell 15 14) = SnakeB.food s /\
  SnakeB.moveSnake s [15; 15] = Ok (s', []) /\
  In (SnakeB.food s') (SnakeB.snake s').
Proof.
  cbv zeta; repeat split; try reflexivity.
  left; reflexivity.
Qed.

(** ** Reversals *)

(** One key never turns the pending heading into its exact reverse. *)
Lemma handleKey_keeps_or_turns (s : SnakeA.State) (key : string) :
  unit_heading (SnakeA.direction s) ->
  unit_heading (SnakeA.direction (SnakeA.handleKey s key)) /\
  SnakeA.direction (SnakeA.handleKey s key) <> cell_neg (SnakeA.direction s).
Proof.
  intros Hu; unfold SnakeA.handleKey, SnakeA.keymap.
  repeat match goal with
         | |- context [String.eqb key ?k] => destruct (String.eqb key k)
         end;
    destruct Hu as [Hu | [Hu | [Hu | Hu]]]; rewrite Hu; simpl; try rewrite Hu;
    (split; [unfold unit_heading; auto | discriminate]).
Qed.

Lemma handleKeyPress_keeps_or_turns (s : SnakeB.State) (key : string) :
  unit_heading (SnakeB.direction s) ->
  unit_heading (SnakeB.direction (SnakeB.handleKeyPress s key)) /\
  SnakeB.direction (SnakeB.handleKeyPress s key) <> cell_neg (SnakeB.direction s).
Proof.
  intros Hu; unfold SnakeB.handleKeyPress, SnakeB.turn.
  repeat match goal with
         | |- context [String.eqb key ?k] => destruct (String.eqb key k)
         end;
    destruct Hu as [Hu | [Hu | [Hu | Hu]]]; rewrite Hu; simpl; try rewrite Hu;
    (split; [unfold unit_heading; auto | discriminate]).
Qed.

(** C2 (both variants break it).  Two keys between two ticks: the snake
    moves right, then Up is accepted against Right and Left is accepted
    against Up, and the next tick applies Left, the exact reverse of the
    Right it applied just before.  In variant A the started snake has three
    cells, so this tick runs the head into the neck and ends the game. *)
Theorem two_keys_reverse_heading :
  (let s0 := SnakeA.mkState SnakeA.START_SNAKE SnakeA.START_DIRECTION
                            (mkCell 15 15) false 150 0 false in
   let evs := [SnakeA.Start; SnakeA.Tick; SnakeA.Key "ArrowUp";
               SnakeA.Key "ArrowLeft"; SnakeA.Tick] in
   SnakeA.init [15; 15; 3; 3] = Ok (s0, [3; 3]) /\
   SnakeA.headings s0 evs [3; 3] = [mkCell 1 0; mkCell (-1) 0] /\
   reverses (SnakeA.headings s0 evs [3; 3]) = true /\
   SnakeA.run s0 evs [3; 3] =
     Ok (SnakeA.mkState [mkCell 10 10; mkCell 9 10; mkCell 8 10]
                        (mkCell (-1) 0) (mkCell 3 3) false 150 0 true, []))
  /\
  (let evs := [SnakeB.Key "ArrowRight"; SnakeB.Tick; SnakeB.Key "ArrowUp";
               SnakeB.Key "ArrowLeft"; SnakeB.Tick] in
   SnakeB.headings SnakeB.init evs [] = [mkCell 1 0; mkCell (-1) 0] /\
   reverses (SnakeB.headings SnakeB.init evs []) = true).
Proof.
  cbv zeta; repeat split; reflexivity.
Qed.

(** ** Collisions *)

(** C3.  A tick of a running game whose candidate head is one of the cells
    of the snake as it is before the tick (the last cell, which a move
    would vacate, is one of them) ends the game: the state comes back with
    the game-over flag set and the same snake, food and score; no draw is
    consumed. *)
Theorem self_collision_ends_game :
  (forall (s : SnakeA.State) (h : Cell) (t : list Cell) (rnd : list Z),
      SnakeA.isRunning s = true -> SnakeA.snake s = h :: t ->
      In (cell_add h (SnakeA.direction s)) (SnakeA.snake s) ->
      exists s',
        SnakeA.tick s rnd = Ok (s', rnd) /\
        SnakeA.gameOver s' = true /\ SnakeA.isRunning s' = false /\
        SnakeA.snake s' = SnakeA.snake s /\ SnakeA.food s' = SnakeA.food s /\
        SnakeA.score s' = SnakeA.score s)
  /\
  (forall (s : SnakeB.State) (h : Cell) (t : list Cell) (rnd : list Z),
      SnakeB.status s = SnakeB.Running -> SnakeB.snake s = h :: t ->
      In (SnakeB.candidate s h) (SnakeB.snake s) ->
      exists s',
        SnakeB.moveSnake s rnd = Ok (s', rnd) /\
        SnakeB.status s' = SnakeB.GameOver /\
        SnakeB.snake s' = SnakeB.snake s /\ SnakeB.food s' = SnakeB.food s /\
        SnakeB.score s' = SnakeB.score s).
Proof.
  split.
  - intros s h t rnd Hrun Hsnake Hin.
    exists (SnakeA.crashed s); split.
    + apply (tickA_self s h t Hrun Hsnake rnd Hin).
    + repeat split; reflexivity.
  - intros s h t rnd Hrun Hsnake Hin.
    exists (SnakeB.crashed s); split.
    + apply (moveSnake_self s h t Hrun Hsnake rnd Hin).
    + repeat split; try reflexivity.
      unfold SnakeB.status in *; simpl.
      destruct (SnakeB.gameStarted s); [reflexivity | discriminate].
Qed.

(** The snake lies on a square of four cells and heads for the cell of its
    own tail. *)
Lemma self_collision_ends_game_witness :
  (exists s',
      SnakeA.tick
        (SnakeA.mkState [mkCell 5 5; mkCell 5 6; mkCell 6 6; mkCell 6 5]
                        (mkCell 1 0) (mkCell 15 15) true 150 0 false) [] =
        Ok (s', []) /\
      SnakeA.gameOver s' = true /\ SnakeA.isRunning s' = false /\
      SnakeA.snake s' = [mkCell 5 5; mkCell 5 6; mkCell 6 6; mkCell 6 5] /\
      SnakeA.food s' = mkCell 15 15 /\ SnakeA.score s' = 0)
  /\
  (exists s',
      SnakeB.moveSnake
        (SnakeB.mkState [mkCell 5 5; mkCell 5 6; mkCell 6 6; mkCell 6 5]
                        (mkCell 1 0) (mkCell 15 15) false 0 false true
                        SnakeB.passthrough) [] =
        Ok (s', []) /\
      SnakeB.status s' = SnakeB.GameOver /\
      SnakeB.snake s' = [mkCell 5 5; mkCell 5 6; mkCell 6 6; mkCell 6 5] /\
      SnakeB.food s' = mkCell 15 15 /\ SnakeB.score s' = 0).
Proof.
  split.
  - apply (proj1 self_collision_ends_game
             (SnakeA.mkState [mkCell 5 5; mkCell 5 6; mkCell 6 6; mkCell 6 5]
                             (mkCell 1 0) (mkCell 15 15) true 150 0 false)
             (mkCell 5 5) [mkCell 5 6; mkCell 6 6; mkCell 6 5] []).
    + reflexivity.
    + reflexivity.
    + simpl; auto.
  - apply (proj2 self_collision_ends_game
             (SnakeB.mkState [mkCell 5 5; mkCell 5 6; mkCell 6 6; mkCell 6 5]
                             (mkCell 1 0) (mkCell 15 15) false 0 false true
                             SnakeB.passthrough)
             (mkCell 5 5) [mkCell 5 6; mkCell 6 6; mkCell 6 5] []).
    + reflexivity.
    + reflexivity.
    + simpl; auto.
Defined.

(** Once the game is over, nothing but a reinitialising event clears the
    flag, and snake, food and score stay as they are. *)
Lemma runA_over (evs : list SnakeA.Event) :
  forall (s : SnakeA.State) (rnd : list Z),
    SnakeA.gameOver s = true ->
    forallb (fun e => negb (SnakeA.is_reset e)) evs = true ->
    exists s',
      SnakeA.run s evs rnd = Ok (s', rnd) /\
      SnakeA.gameOver s' = true /\
      SnakeA.snake s' = SnakeA.snake s /\ SnakeA.food s' = SnakeA.food s /\
      SnakeA.score s' = SnakeA.score s.
Proof.
  induction evs as [|e evs IH]; intros s rnd Hover Hevs.
  - exists s; repeat split; auto.
  - simpl in Hevs; apply andb_true_iff in Hevs; destruct Hevs as [He Hevs].
    assert (Hstep : exists s1, SnakeA.step s e rnd = Ok (s1, rnd) /\
                               SnakeA.gameOver s1 = true /\
                               SnakeA.snake s1 = SnakeA.snake s /\
                               SnakeA.food s1 = SnakeA.food s /\
                               SnakeA.score s1 = SnakeA.score s).
    { destruct e; try discriminate He; simpl.
      - exists (SnakeA.handleKey s key); split; [reflexivity |].
        unfold SnakeA.handleKey; destruct (SnakeA.keymap key); [| auto].
        destruct (_ && _); simpl; auto.
      - exists s; split; [| auto].
        apply tickA_idle; unfold SnakeA.isRunning; rewrite Hover.
        apply andb_false_r.
      - exists (SnakeA.pause s); split; [reflexivity | simpl; auto].
      - exists (SnakeA.resume s); split; [reflexivity |].
        unfold SnakeA.resume; rewrite Hover; simpl; auto.
      - exists (SnakeA.faster s); split; [reflexivity | simpl; auto].
      - exists (SnakeA.slower s); split; [reflexivity | simpl; auto]. }
    destruct Hstep as [s1 [Hs1 [Ho1 [Hsn1 [Hf1 Hsc1]]]]].
    destruct (IH s1 rnd Ho1 Hevs) as [s' [Hs' [Ho' [Hsn' [Hf' Hsc']]]]].
    exists s'; split.
    + simpl; unfold bind; rewrite Hs1; exact Hs'.
    + repeat split; congruence.
Qed.

Lemma runB_over (evs : list SnakeB.Event) :
  forall (s : SnakeB.State) (rnd : list Z),
    SnakeB.status s = SnakeB.GameOver ->
    forallb (fun e => negb (SnakeB.is_reset e)) evs = true ->
    exists s',
      SnakeB.run s evs rnd = Ok (s', rnd) /\
      SnakeB.status s' = SnakeB.GameOver /\
      SnakeB.snake s' = SnakeB.snake s /\ SnakeB.food s' = SnakeB.food s /\
      SnakeB.score s' = SnakeB.score s.
Proof.
  induction evs as [|e evs IH]; intros s rnd Hover Hevs.
  - exists s; repeat split; auto.
  - simpl in Hevs; apply andb_true_iff in Hevs; destruct Hevs as [He Hevs].
    assert (Hstep : exists s1, SnakeB.step s e rnd = Ok (s1, rnd) /\
                               SnakeB.status s1 = SnakeB.GameOver /\
                               SnakeB.snake s1 = SnakeB.snake s /\
                               SnakeB.food s1 = SnakeB.food s /\
                               SnakeB.score s1 = SnakeB.score s).
    { destruct e; try discriminate He; simpl.
      - exists (SnakeB.handleKeyPress s key); split; [reflexivity |].
        revert Hover; unfold SnakeB.handleKeyPress, SnakeB.status.
        destruct (SnakeB.gameStarted s); [| discriminate].
        destruct (SnakeB.gameOver s); [| destruct (SnakeB.isPaused s); discriminate].
        intros _; simpl; destruct (String.eqb key " "); simpl; auto.
      - exists s; split; [| auto].
        apply moveSnake_idle; congruence.
      - exists (SnakeB.toggleWallMode s); split; [reflexivity |].
        revert Hover; unfold SnakeB.toggleWallMode, SnakeB.status.
        destruct (SnakeB.gameStarted s); [| discriminate].
        destruct (SnakeB.gameOver s); [| destruct (SnakeB.isPaused s); discriminate].
        intros _; simpl; auto. }
    destruct Hstep as [s1 [Hs1 [Ho1 [Hsn1 [Hf1 Hsc1]]]]].
    destruct (IH s1 rnd Ho1 Hevs) as [s' [Hs' [Ho' [Hsn' [Hf' Hsc']]]]].
    exists s'; split.
    + simpl; unfold bind; rewrite Hs1; exact Hs'.
    + repeat split; congruence.
Qed.

(** C4.  With lethal walls (always in variant A, wall mode [wall] in
    variant B), a tick of a running game whose candidate head is off the
    grid sets the game-over flag and keeps snake, food and score.  From
    then on, whatever keys and buttons other than the reinitialising ones
    come in, and however many ticks, the game stays over with the same
    snake, food and score, and a tick returns the state it is given. *)
Theorem lethal_wall_ends_game :
  (forall (s : SnakeA.State) (h : Cell) (t : list Cell) (rnd : list Z),
      SnakeA.isRunning s = true -> SnakeA.snake s = h :: t ->
      outside SnakeA.BOARD_SIZE (cell_add h (SnakeA.direction s)) = true ->
      exists s1,
        SnakeA.tick s rnd = Ok (s1, rnd) /\
        SnakeA.gameOver s1 = true /\ SnakeA.isRunning s1 = false /\
        SnakeA.snake s1 = SnakeA.snake s /\ SnakeA.food s1 = SnakeA.food s /\
        SnakeA.score s1 = SnakeA.score s /\
        forall (evs : list SnakeA.Event) (rnd1 : list Z),
          forallb (fun e => negb (SnakeA.is_reset e)) evs = true ->
          exists s2,
            SnakeA.run s1 evs rnd1 = Ok (s2, rnd1) /\
            SnakeA.gameOver s2 = true /\
            SnakeA.snake s2 = SnakeA.snake s /\ SnakeA.food s2 = SnakeA.food s /\
            SnakeA.score s2 = SnakeA.score s /\
            SnakeA.tick s2 rnd1 = Ok (s2, rnd1))
  /\
  (forall (s : SnakeB.State) (h : Cell) (t : list Cell) (rnd : list Z),
      SnakeB.wallMode s = SnakeB.wall ->
      SnakeB.status s = SnakeB.Running -> SnakeB.snake s = h :: t ->
      outside SnakeB.GRID_SIZE (cell_add h (SnakeB.direction s)) = true ->
      exists s1,
        SnakeB.moveSnake s rnd = Ok (s1, rnd) /\
        SnakeB.status s1 = SnakeB.GameOver /\
        SnakeB.snake s1 = SnakeB.snake s /\ SnakeB.food s1 = SnakeB.food s /\
        SnakeB.score s1 = SnakeB.score s /\
        forall (evs : list SnakeB.Event) (rnd1 : list Z),
          forallb (fun e => negb (SnakeB.is_reset e)) evs = true ->
          exists s2,
            SnakeB.run s1 evs rnd1 = Ok (s2, rnd1) /\
            SnakeB.status s2 = SnakeB.GameOver /\
            SnakeB.snake s2 = SnakeB.snake s /\ SnakeB.food s2 = SnakeB.food s /\
            SnakeB.score s2 = SnakeB.score s /\
            SnakeB.moveSnake s2 rnd1 = Ok (s2, rnd1)).
Proof.
  split.
  - intros s h t rnd Hrun Hsnake Hout.
    exists (SnakeA.crashed s); split.
    { apply (tickA_wall s h t Hrun Hsnake rnd Hout). }
    repeat (split; [reflexivity |]).
    intros evs rnd1 Hevs.
    destruct (runA_over evs (SnakeA.crashed s) rnd1 eq_refl Hevs)
      as [s2 [Hs2 [Ho2 [Hsn2 [Hf2 Hsc2]]]]].
    exists s2; repeat (split; [assumption |]).
    apply tickA_idle; unfold SnakeA.isRunning; rewrite Ho2; apply andb_false_r.
  - intros s h t rnd Hw Hrun Hsnake Hout.
    assert (Hover : SnakeB.status (SnakeB.crashed s) = SnakeB.GameOver).
    { unfold SnakeB.status in *; simpl.
      destruct (SnakeB.gameStarted s); [reflexivity | discriminate]. }
    exists (SnakeB.crashed s); split.
    { apply (moveSnake_wall s h t Hrun Hsnake rnd Hw).
      unfold SnakeB.candidate; rewrite Hw; exact Hout. }
    split; [exact Hover |].
    repeat (split; [reflexivity |]).
    intros evs rnd1 Hevs.
    destruct (runB_over evs (SnakeB.crashed s) rnd1 Hover Hevs)
      as [s2 [Hs2 [Ho2 [Hsn2 [Hf2 Hsc2]]]]].
    exists s2; repeat (split; [assumption |]).
    apply moveSnake_idle; congruence.
Qed.

(** The started snake of variant A runs right from column 19; the snake of
    variant B runs left from column 0. *)
Lemma lethal_wall_ends_game_witness :
  (exists s1,
      SnakeA.tick
        (SnakeA.mkState [mkCell 19 10; mkCell 18 10; mkCell 17 10]
                        (mkCell 1 0) (mkCell 15 15) true 150 0 false) [] =
        Ok (s1, []) /\
      SnakeA.gameOver s1 = true /\
      exists s2,
        SnakeA.run s1 [SnakeA.Tick; SnakeA.Key "ArrowUp"; SnakeA.Resume;
                       SnakeA.Faster; SnakeA.Tick] [7; 7] = Ok (s2, [7; 7]) /\
        SnakeA.snake s2 = [mkCell 19 10; mkCell 18 10; mkCell 17 10] /\
        SnakeA.tick s2 [7; 7] = Ok (s2, [7; 7]))
  /\
  (exists s1,
      SnakeB.moveSnake
        (SnakeB.mkState [mkCell 0 10] (mkCell (-1) 0) (mkCell 15 15) false 0
                        false true SnakeB.wall) [] = Ok (s1, []) /\
      SnakeB.status s1 = SnakeB.GameOver /\
      exists s2,
        SnakeB.run s1 [SnakeB.Tick; SnakeB.Key "ArrowUp"; SnakeB.ToggleWall;
                       SnakeB.Key " "; SnakeB.Tick] [7; 7] = Ok (s2, [7; 7]) /\
        SnakeB.snake s2 = [mkCell 0 10] /\
        SnakeB.moveSnake s2 [7; 7] = Ok (s2, [7; 7])).
Proof.
  split.
  - destruct (proj1 lethal_wall_ends_game
                (SnakeA.mkState [mkCell 19 10; mkCell 18 10; mkCell 17 10]
                                (mkCell 1 0) (mkCell 15 15) true 150 0 false)
                (mkCell 19 10) [mkCell 18 10; mkCell 17 10] []
                eq_refl eq_refl eq_refl)
      as [s1 [Ht [Ho [_ [_ [_ [_ Hafter]]]]]]].
    exists s1; split; [exact Ht | split; [exact Ho |]].
    destruct (Hafter [SnakeA.Tick; SnakeA.Key "ArrowUp"; SnakeA.Resume;
                      SnakeA.Faster; SnakeA.Tick] [7; 7] eq_refl)
      as [s2 [Hr [_ [Hsn [_ [_ Htick]]]]]].
    exists s2; auto.
  - destruct (proj2 lethal_wall_ends_game
                (SnakeB.mkState [mkCell 0 10] (mkCell (-1) 0) (mkCell 15 15)
                                false 0 false true SnakeB.wall)
                (mkCell 0 10) [] [] eq_refl eq_refl eq_refl eq_refl)
      as [s1 [Ht [Ho [_ [_ [_ Hafter]]]]]].
    exists s1; split; [exact Ht | split; [exact Ho |]].
    destruct (Hafter [SnakeB.Tick; SnakeB.Key "ArrowUp"; SnakeB.ToggleWall;
                      SnakeB.Key " "; SnakeB.Tick] [7; 7] eq_refl)
      as [s2 [Hr [_ [Hsn [_ [_ Htick]]]]]].
    exists s2; auto.
Defined.

(** ** Plain movement *)

Lemma wrap_inside (v : Z) :
  0 <= v < SnakeB.GRID_SIZE -> SnakeB.wrap v = v.
Proof.
  unfold SnakeB.wrap, SnakeB.GRID_SIZE; intros Hv.
  destruct (v <? 0) eqn:E1; [apply Z.ltb_lt in E1; lia |].
  destruct (v >=? 20) eqn:E2; [apply Z.geb_ge in E2; lia | reflexivity].
Qed.

Lemma outside_false (size : Z) (c : Cell) :
  outside size c = false <-> (0 <= cx c < size /\ 0 <= cy c < size).
Proof.
  unfold outside; rewrite !orb_false_iff, !Z.ltb_ge, !Z.geb_leb, !Z.leb_gt; lia.
Qed.

(** On the grid the candidate head of variant B is the head plus the
    heading, whatever the wall mode. *)
Lemma candidate_inside (s : SnakeB.State) (h : Cell) :
  outside SnakeB.GRID_SIZE (cell_add h (SnakeB.direction s)) = false ->
  SnakeB.candidate s h = cell_add h (SnakeB.direction s).
Proof.
  intros Hout; apply outside_false in Hout; destruct Hout as [Hx Hy].
  unfold SnakeB.candidate; destruct (SnakeB.wallMode s); [reflexivity |].
  rewrite !wrap_inside by assumption.
  destruct (cell_add h (SnakeB.direction s)); reflexivity.
Qed.

(** C5.  A tick of a running game whose candidate head is on the grid, is
    no cell of the snake and is not the food: the new snake is the
    candidate head followed by the old snake without its last cell.  Its
    length is the old length, its head is the old head moved one step along
    the heading, and every cell behind the head sits where the cell in
    front of it sat.  Nothing else changes and no draw is consumed. *)
Theorem plain_move_shifts_snake :
  (forall (s : SnakeA.State) (h : Cell) (t : list Cell) (rnd : list Z),
      SnakeA.isRunning s = true -> SnakeA.snake s = h :: t ->
      let newHead := cell_add h (SnakeA.direction s) in
      outside SnakeA.BOARD_SIZE newHead = false ->
      ~ In newHead (SnakeA.snake s) -> newHead <> SnakeA.food s ->
      exists s',
        SnakeA.tick s rnd = Ok (s', rnd) /\
        SnakeA.snake s' = newHead :: removelast (SnakeA.snake s) /\
        length (SnakeA.snake s') = length (SnakeA.snake s) /\
        (forall i, (S i < length (SnakeA.snake s))%nat ->
                   nth_error (SnakeA.snake s') (S i) = nth_error (SnakeA.snake s) i) /\
        SnakeA.score s' = SnakeA.score s /\ SnakeA.speed s' = SnakeA.speed s /\
        SnakeA.food s' = SnakeA.food s /\ SnakeA.running s' = SnakeA.running s /\
        SnakeA.gameOver s' = SnakeA.gameOver s /\
        SnakeA.direction s' = SnakeA.direction s)
  /\
  (forall (s : SnakeB.State) (h : Cell) (t : list Cell) (rnd : list Z),
      SnakeB.status s = SnakeB.Running -> SnakeB.snake s = h :: t ->
      let newHead := cell_add h (SnakeB.direction s) in
      outside SnakeB.GRID_SIZE newHead = false ->
      ~ In newHead (SnakeB.snake s) -> newHead <> SnakeB.food s ->
      exists s',
        SnakeB.moveSnake s rnd = Ok (s', rnd) /\
        SnakeB.snake s' = newHead :: removelast (SnakeB.snake s) /\
        length (SnakeB.snake s') = length (SnakeB.snake s) /\
        (forall i, (S i < length (SnakeB.snake s))%nat ->
                   nth_error (SnakeB.snake s') (S i) = nth_error (SnakeB.snake s) i) /\
        SnakeB.score s' = SnakeB.score s /\ SnakeB.speed s' = SnakeB.speed s /\
        SnakeB.food s' = SnakeB.food s /\ SnakeB.status s' = SnakeB.status s /\
        SnakeB.direction s' = SnakeB.direction s /\
        SnakeB.wallMode s' = SnakeB.wallMode s).
Proof.
  split.
  - intros s h t rnd Hrun Hsnake newHead Hout Hin Hfood.
    eexists; split.
    { apply (tickA_move s h t Hrun Hsnake rnd Hout Hin Hfood). }
    simpl; fold newHead.
    split; [reflexivity |].
    split; [rewrite Hsnake, removelast_length; reflexivity |].
    split; [intros i Hi; apply removelast_nth; assumption |].
    repeat split.
  - intros s h t rnd Hrun Hsnake newHead Hout Hin Hfood.
    pose proof (candidate_inside s h Hout) as Hc; fold newHead in Hc.
    eexists; split.
    { apply (moveSnake_move s h t Hrun Hsnake rnd); rewrite Hc; auto. }
    simpl; rewrite Hc.
    split; [reflexivity |].
    split; [rewrite Hsnake, removelast_length; reflexivity |].
    split; [intros i Hi; apply removelast_nth; assumption |].
    repeat split.
Qed.

(** Three cells in a row moving right, away from the food. *)
Lemma plain_move_shifts_snake_witness :
  (exists s',
      SnakeA.tick
        (SnakeA.mkState [mkCell 9 10; mkCell 8 10; mkCell 7 10] (mkCell 1 0)
                        (mkCell 15 15) true 150 0 false) [] = Ok (s', []) /\
      SnakeA.snake s' = [mkCell 10 10; mkCell 9 10; mkCell 8 10])
  /\
  (exists s',
      SnakeB.moveSnake
        (SnakeB.mkState [mkCell 9 10; mkCell 8 10; mkCell 7 10] (mkCell 1 0)
                        (mkCell 15 15) false 0 false true SnakeB.passthrough) [] =
        Ok (s', []) /\
      SnakeB.snake s' = [mkCell 10 10; mkCell 9 10; mkCell 8 10]).
Proof.
  split.
  - destruct (proj1 plain_move_shifts_snake
                (SnakeA.mkState [mkCell 9 10; mkCell 8 10; mkCell 7 10]
                                (mkCell 1 0) (mkCell 15 15) true 150 0 false)
                (mkCell 9 10) [mkCell 8 10; mkCell 7 10] [] eq_refl eq_refl)
      as [s' [Ht [Hsn _]]].
    + reflexivity.
    + simpl; intros [H | [H | [H | []]]]; discriminate H.
    + discriminate.
    + exists s'; split; [exact Ht | exact Hsn].
  - destruct (proj2 plain_move_shifts_snake
                (SnakeB.mkState [mkCell 9 10; mkCell 8 10; mkCell 7 10]
                                (mkCell 1 0) (mkCell 15 15) false 0 false true
                                SnakeB.passthrough)
                (mkCell 9 10) [mkCell 8 10; mkCell 7 10] [] eq_refl eq_refl)
      as [s' [Ht [Hsn _]]].
    + reflexivity.
    + simpl; intros [H | [H | [H | []]]]; discriminate H.
    + discriminate.
    + exists s'; split; [exact Ht | exact Hsn].
Defined.

(** ** Variant B: what every reachable state satisfies *)

Lemma wrap_range (v : Z) : 0 <= SnakeB.wrap v < SnakeB.GRID_SIZE.
Proof.
  unfold SnakeB.wrap, SnakeB.GRID_SIZE.
  destruct (v <? 0) eqn:E1; simpl.
  - lia.
  - apply Z.ltb_ge in E1.
    destruct (v >=? 20) eqn:E2; [lia |].
    rewrite Z.geb_leb in E2; apply Z.leb_gt in E2; lia.
Qed.

Lemma wrap_mod (v : Z) :
  -1 <= v <= SnakeB.GRID_SIZE -> SnakeB.wrap v = v mod SnakeB.GRID_SIZE.
Proof.
  unfold SnakeB.GRID_SIZE; intros Hv.
  assert (Hc : v = -1 \/ v = 20 \/ 0 <= v < 20) by lia.
  destruct Hc as [-> | [-> | Hc]]; [reflexivity | reflexivity |].
  rewrite Z.mod_small by assumption.
  apply wrap_inside; exact Hc.
Qed.

(** What [moveTo] returns, for a snake that has cells. *)
Lemma moveTo_result (s : SnakeB.State) (h : Cell) (t : list Cell) (c : Cell)
      (rnd : list Z) (s' : SnakeB.State) (rnd' : list Z) :
  SnakeB.snake s = h :: t ->
  SnakeB.moveTo s c rnd = Ok (s', rnd') ->
  SnakeB.direction s' = SnakeB.direction s /\
  if existsb (fun segment => cell_eqb segment c) (SnakeB.snake s)
  then s' = SnakeB.crashed s /\ rnd' = rnd
  else SnakeB.gameOver s' = SnakeB.gameOver s /\
       exists l, SnakeB.snake s' = c :: l.
Proof.
  intros Hsnake; unfold SnakeB.moveTo.
  destruct (existsb _ (SnakeB.snake s)).
  - unfold ret; intros H; injection H as <- <-; auto.
  - destruct (cell_eqb c (SnakeB.food s)).
    + unfold bind, ret.
      destruct (SnakeB.generateFood (SnakeB.snake s) rnd) as [[f r] | |];
        try discriminate.
      intros H; injection H as <- <-; simpl; eauto.
    + unfold ret; intros H; injection H as <- <-; simpl.
      rewrite Hsnake; eauto.
Qed.

Lemma stepB_wellformed (s : SnakeB.State) (e : SnakeB.Event) (rnd : list Z)
      (s' : SnakeB.State) (rnd' : list Z) :
  wellformedB s -> SnakeB.step s e rnd = Ok (s', rnd') -> wellformedB s'.
Proof.
  intros [Hu [h [t [Hsnake Hh]]]] Hstep.
  destruct e; simpl in Hstep.
  - injection Hstep as <- <-; split.
    + apply handleKeyPress_keeps_or_turns; assumption.
    + exists h, t; split; [| assumption].
      unfold SnakeB.handleKeyPress; destruct (String.eqb key " "); assumption.
  - destruct (SnakeB.status s) eqn:Hst;
      try (rewrite moveSnake_idle in Hstep by congruence;
           injection Hstep as <- <-; split; eauto).
    rewrite (moveSnake_candidate s h t Hst Hsnake) in Hstep.
    destruct (match SnakeB.wallMode s with
              | SnakeB.wall => outside SnakeB.GRID_SIZE (SnakeB.candidate s h)
              | SnakeB.passthrough => false
              end) eqn:Hw.
    + injection Hstep as <- <-; split; [assumption | exists h, t; auto].
    + destruct (moveTo_result s h t _ rnd s' rnd' Hsnake Hstep) as [Hd Hres].
      split; [rewrite Hd; assumption |].
      destruct (existsb _ (SnakeB.snake s)).
      * destruct Hres as [-> _]; exists h, t; auto.
      * destruct Hres as [_ [l Hl]].
        exists (SnakeB.candidate s h), l; split; [assumption |].
        revert Hw; unfold SnakeB.candidate; destruct (SnakeB.wallMode s); [auto |].
        intros _; apply outside_false; simpl; split; apply wrap_range.
  - injection Hstep as <- <-; split.
    + unfold unit_heading; simpl; auto.
    + exists (mkCell 10 10), []; split; reflexivity.
  - injection Hstep as <- <-; unfold SnakeB.toggleWallMode.
    destruct (negb (SnakeB.gameStarted s) || SnakeB.gameOver s); split; eauto.
Qed.

Lemma reachableB_wellformed (s : SnakeB.State) :
  SnakeB.reachable s -> wellformedB s.
Proof.
  induction 1 as [| s e rnd s' rnd' _ IH Hstep].
  - split; [unfold unit_heading; simpl; auto |].
    exists (mkCell 10 10), []; split; reflexivity.
  - exact (stepB_wellformed s e rnd s' rnd' IH Hstep).
Qed.

(** The end of a run that starts in a reachable state is reachable. *)
Lemma reachableB_run (evs : list SnakeB.Event) :
  forall (s : SnakeB.State) (rnd : list Z) (s' : SnakeB.State) (rnd' : list Z),
    SnakeB.reachable s -> SnakeB.run s evs rnd = Ok (s', rnd') ->
    SnakeB.reachable s'.
Proof.
  induction evs as [|e evs IH]; intros s rnd s' rnd' Hs Hrun; simpl in Hrun.
  - injection Hrun as <- _; assumption.
  - unfold bind in Hrun.
    destruct (SnakeB.step s e rnd) as [[s1 rnd1] | |] eqn:Hstep; try discriminate.
    apply (IH s1 rnd1 s' rnd'); [| assumption].
    exact (SnakeB.reach_step s e rnd s1 rnd1 Hs Hstep).
Qed.

(** ** Pass-through walls *)

(** C6.  In every reachable running state of variant B with wall mode
    [passthrough], the candidate head is the head plus the heading with
    each coordinate taken modulo the grid size on its own: -1 becomes
    [GRID_SIZE - 1] and [GRID_SIZE] becomes 0.  The tick sets the game-over
    flag exactly when this wrapped cell is a cell of the snake: leaving the
    grid never does.  Otherwise the wrapped cell is the new head, and when
    it is not the food the tick is a plain move. *)
Theorem passthrough_wraps_modulo (s : SnakeB.State) :
  SnakeB.reachable s ->
  SnakeB.status s = SnakeB.Running ->
  SnakeB.wallMode s = SnakeB.passthrough ->
  exists h t,
    SnakeB.snake s = h :: t /\
    let c := cell_add h (SnakeB.direction s) in
    let newHead := SnakeB.candidate s h in
    newHead = mkCell (cx c mod SnakeB.GRID_SIZE) (cy c mod SnakeB.GRID_SIZE) /\
    (cx c = -1 -> cx newHead = SnakeB.GRID_SIZE - 1) /\
    (cx c = SnakeB.GRID_SIZE -> cx newHead = 0) /\
    (cy c = -1 -> cy newHead = SnakeB.GRID_SIZE - 1) /\
    (cy c = SnakeB.GRID_SIZE -> cy newHead = 0) /\
    (forall rnd s' rnd',
        SnakeB.moveSnake s rnd = Ok (s', rnd') ->
        SnakeB.gameOver s' =
          existsb (fun segment => cell_eqb segment newHead) (SnakeB.snake s) /\
        (SnakeB.gameOver s' = false -> hd_error (SnakeB.snake s') = Some newHead)) /\
    (forall rnd,
        ~ In newHead (SnakeB.snake s) -> newHead <> SnakeB.food s ->
        SnakeB.moveSnake s rnd =
          Ok (SnakeB.mkState (newHead :: removelast (SnakeB.snake s))
                             (SnakeB.direction s) (SnakeB.food s) false
                             (SnakeB.score s) false true SnakeB.passthrough,
              rnd)).
Proof.
  intros Hreach Hrun Hw.
  destruct (reachableB_wellformed s Hreach) as [Hu [h [t [Hsnake Hh]]]].
  exists h, t; split; [assumption |]; cbv zeta.
  apply outside_false in Hh; destruct Hh as [Hx Hy].
  assert (Hcx : -1 <= cx (cell_add h (SnakeB.direction s)) <= SnakeB.GRID_SIZE).
  { destruct Hu as [Hu | [Hu | [Hu | Hu]]]; rewrite Hu; simpl; lia. }
  assert (Hcy : -1 <= cy (cell_add h (SnakeB.direction s)) <= SnakeB.GRID_SIZE).
  { destruct Hu as [Hu | [Hu | [Hu | Hu]]]; rewrite Hu; simpl; lia. }
  assert (Hcand : SnakeB.candidate s h =
                  mkCell (cx (cell_add h (SnakeB.direction s)) mod SnakeB.GRID_SIZE)
                         (cy (cell_add h (SnakeB.direction s)) mod SnakeB.GRID_SIZE)).
  { unfold SnakeB.candidate; rewrite Hw, !wrap_mod by assumption; reflexivity. }
  split; [exact Hcand |].
  rewrite Hcand; cbn [cx cy].
  split; [intros ->; reflexivity |].
  split; [intros ->; reflexivity |].
  split; [intros ->; reflexivity |].
  split; [intros ->; reflexivity |].
  rewrite <- Hcand.
  pose proof Hrun as Hflags; unfold SnakeB.status in Hflags.
  destruct (SnakeB.gameStarted s) eqn:Hgs; [| discriminate].
  destruct (SnakeB.gameOver s) eqn:Hgo; [discriminate |].
  destruct (SnakeB.isPaused s) eqn:Hip; [discriminate |].
  clear Hflags; split.
  - intros rnd s' rnd' Hmove.
    rewrite (moveSnake_candidate s h t Hrun Hsnake), Hw in Hmove.
    destruct (moveTo_result s h t _ rnd s' rnd' Hsnake Hmove) as [_ Hres].
    destruct (existsb _ (SnakeB.snake s)).
    + destruct Hres as [-> _]; split; [reflexivity | discriminate].
    + destruct Hres as [Hg [l Hl]]; split; [congruence |].
      intros _; rewrite Hl; reflexivity.
  - intros rnd Hin Hfood.
    rewrite (moveSnake_move s h t Hrun Hsnake rnd) by (auto; congruence).
    rewrite Hgs, Hgo, Hip, Hw; reflexivity.
Qed.

(** Variant B switched to pass-through before the start, then run up from
    (10,10) to row 0: the next candidate has [y = -1]. *)
Lemma passthrough_wraps_modulo_witness :
  let s := SnakeB.mkState [mkCell 10 0] (mkCell 0 (-1)) (mkCell 15 15) false 0
                          false true SnakeB.passthrough in
  SnakeB.candidate s (mkCell 10 0) = mkCell 10 19 /\
  SnakeB.moveSnake s [] =
    Ok (SnakeB.mkState [mkCell 10 19] (mkCell 0 (-1)) (mkCell 15 15) false 0
                       false true SnakeB.passthrough, []).
Proof.
  cbv zeta.
  destruct (passthrough_wraps_modulo
              (SnakeB.mkState [mkCell 10 0] (mkCell 0 (-1)) (mkCell 15 15)
                              false 0 false true SnakeB.passthrough))
    as [h [t [Hsnake [Hcand [_ [_ [Hy [_ [_ Hmove]]]]]]]]].
  - apply (reachableB_run
             [SnakeB.ToggleWall; SnakeB.Key "ArrowUp"; SnakeB.Tick; SnakeB.Tick;
              SnakeB.Tick; SnakeB.Tick; SnakeB.Tick; SnakeB.Tick; SnakeB.Tick;
              SnakeB.Tick; SnakeB.Tick; SnakeB.Tick]
             SnakeB.init [] _ [] SnakeB.reach_init).
    reflexivity.
  - reflexivity.
  - reflexivity.
  - injection Hsnake as <- <-.
    split; [exact Hcand |].
    apply (Hmove []).
    + simpl; intros [H | []]; discriminate H.
    + discriminate.
Defined.

(** ** Keys that ask for the reverse heading *)

(** The keys of variant B that ask for a heading are the four arrows. *)
Lemma keyHeading_arrow (key : string) (d : Cell) :
  SnakeB.keyHeading key = Some d ->
  (key = "ArrowUp"%string /\ d = mkCell 0 (-1)) \/
  (key = "ArrowDown"%string /\ d = mkCell 0 1) \/
  (key = "ArrowLeft"%string /\ d = mkCell (-1) 0) \/
  (key = "ArrowRight"%string /\ d = mkCell 1 0).
Proof.
  unfold SnakeB.keyHeading.
  destruct (String.eqb key "ArrowUp") eqn:E1;
    [apply String.eqb_eq in E1; intros H; injection H as <-; auto |].
  destruct (String.eqb key "ArrowDown") eqn:E2;
    [apply String.eqb_eq in E2; intros H; injection H as <-; auto |].
  destruct (String.eqb key "ArrowLeft") eqn:E3;
    [apply String.eqb_eq in E3; intros H; injection H as <-; auto |].
  destruct (String.eqb key "ArrowRight") eqn:E4;
    [apply String.eqb_eq in E4; intros H; injection H as <-; auto 6 |].
  discriminate.
Qed.

(** C7 as stated fails in variant B: before the game has started, the
    Left arrow asks for the reverse of the initial heading; the heading
    stays, but the key starts the game. *)
Lemma reversal_key_starts_game :
  SnakeB.keyHeading "ArrowLeft" = Some (mkCell (-1) 0) /\
  cx (SnakeB.direction SnakeB.init) + cx (mkCell (-1) 0) = 0 /\
  cy (SnakeB.direction SnakeB.init) + cy (mkCell (-1) 0) = 0 /\
  SnakeB.status SnakeB.init = SnakeB.NotStarted /\
  SnakeB.status (SnakeB.handleKeyPress SnakeB.init "ArrowLeft") = SnakeB.Running /\
  SnakeB.handleKeyPress SnakeB.init "ArrowLeft" <> SnakeB.init.
Proof.
  repeat split; try reflexivity.
  discriminate.
Qed.

(** C7, amended.  A key whose heading is the exact negation of the current
    heading (both component sums are zero) leaves the heading as it is.
    In variant A the whole state is left as it is.  In variant B every
    cell but [gameStarted] is left as it is, and [gameStarted] holds
    afterwards: the whole state is left as it is once the game has
    started. *)
Theorem reversal_key_keeps_heading :
  (forall (s : SnakeA.State) (key : string) (d : Cell),
      SnakeA.keymap key = Some d ->
      cx (SnakeA.direction s) + cx d = 0 ->
      cy (SnakeA.direction s) + cy d = 0 ->
      SnakeA.handleKey s key = s)
  /\
  (forall (s : SnakeB.State) (key : string) (d : Cell),
      SnakeB.keyHeading key = Some d ->
      cx (SnakeB.direction s) + cx d = 0 ->
      cy (SnakeB.direction s) + cy d = 0 ->
      SnakeB.direction (SnakeB.handleKeyPress s key) = SnakeB.direction s /\
      SnakeB.handleKeyPress s key =
        SnakeB.mkState (SnakeB.snake s) (SnakeB.direction s) (SnakeB.food s)
                       (SnakeB.gameOver s) (SnakeB.score s) (SnakeB.isPaused s)
                       true (SnakeB.wallMode s) /\
      (SnakeB.gameStarted s = true -> SnakeB.handleKeyPress s key = s)).
Proof.
  split.
  - intros s key d Hkey Hx Hy.
    unfold SnakeA.handleKey; rewrite Hkey.
    apply Z.eqb_eq in Hx, Hy; rewrite Hx, Hy; reflexivity.
  - intros s key d Hkey Hx Hy.
    assert (Hk : SnakeB.handleKeyPress s key =
                 SnakeB.mkState (SnakeB.snake s) (SnakeB.direction s)
                                (SnakeB.food s) (SnakeB.gameOver s)
                                (SnakeB.score s) (SnakeB.isPaused s) true
                                (SnakeB.wallMode s)).
    { destruct s as [sn [dx dy] fd go sc ip gs wm]; simpl in Hx, Hy.
      destruct (keyHeading_arrow key d Hkey)
        as [[-> ->] | [[-> ->] | [[-> ->] | [-> ->]]]];
        simpl in Hx, Hy;
        unfold SnakeB.handleKeyPress, SnakeB.turn; simpl.
      + replace dy with 1 by lia; destruct gs; reflexivity.
      + replace dy with (-1) by lia; destruct gs; reflexivity.
      + replace dx with 1 by lia; destruct gs; reflexivity.
      + replace dx with (-1) by lia; destruct gs; reflexivity. }
    split; [rewrite Hk; reflexivity |].
    split; [exact Hk |].
    intros Hgs; rewrite Hk; destruct s; simpl in *; subst; reflexivity.
Qed.

(** The snake of variant A heads right and [a] asks for left; the started
    snake of variant B heads down and the Up arrow comes in. *)
Lemma reversal_key_keeps_heading_witness :
  SnakeA.handleKey
    (SnakeA.mkState SnakeA.START_SNAKE (mkCell 1 0) (mkCell 15 15) true 150 0
                    false) "a" =
    SnakeA.mkState SnakeA.START_SNAKE (mkCell 1 0) (mkCell 15 15) true 150 0 false
  /\
  SnakeB.handleKeyPress
    (SnakeB.mkState [mkCell 10 12] (mkCell 0 1) (mkCell 15 15) false 0 false
                    true SnakeB.wall) "ArrowUp" =
    SnakeB.mkState [mkCell 10 12] (mkCell 0 1) (mkCell 15 15) false 0 false true
                   SnakeB.wall.
Proof.
  split.
  - apply (proj1 reversal_key_keeps_heading _ "a"%string (mkCell (-1) 0));
      reflexivity.
  - apply (proj2 reversal_key_keeps_heading
             (SnakeB.mkState [mkCell 10 12] (mkCell 0 1) (mkCell 15 15) false 0
                             false true SnakeB.wall)
             "ArrowUp"%string (mkCell 0 (-1)) eq_refl eq_refl eq_refl).
    reflexivity.
Defined.

(** ** The wall-mode toggle *)

(** C8.  While the game is running or paused the toggle returns the state
    it is given.  Before the start and after the end it flips the wall
    mode and nothing else.  So the wall mode changes only when the status
    is [NotStarted] or [GameOver]. *)
Theorem toggleWallMode_needs_idle_game (s : SnakeB.State) :
  (SnakeB.status s = SnakeB.Running \/ SnakeB.status s = SnakeB.Paused ->
   SnakeB.toggleWallMode s = s)
  /\
  (SnakeB.status s = SnakeB.NotStarted \/ SnakeB.status s = SnakeB.GameOver ->
   SnakeB.toggleWallMode s =
     SnakeB.mkState (SnakeB.snake s) (SnakeB.direction s) (SnakeB.food s)
                    (SnakeB.gameOver s) (SnakeB.score s) (SnakeB.isPaused s)
                    (SnakeB.gameStarted s)
                    (match SnakeB.wallMode s with
                     | SnakeB.wall => SnakeB.passthrough
                     | SnakeB.passthrough => SnakeB.wall
                     end) /\
   SnakeB.wallMode (SnakeB.toggleWallMode s) <> SnakeB.wallMode s)
  /\
  (SnakeB.wallMode (SnakeB.toggleWallMode s) <> SnakeB.wallMode s ->
   SnakeB.status s = SnakeB.NotStarted \/ SnakeB.status s = SnakeB.GameOver).
Proof.
  destruct s as [sn d f go sc ip gs wm].
  unfold SnakeB.toggleWallMode, SnakeB.status; simpl.
  destruct gs, go, ip; simpl;
    (split; [| split]);
    try (intros [H | H]; discriminate H);
    try (intros _; reflexivity);
    try (intros _; split; [reflexivity | destruct wm; discriminate]);
    try (intros H; exfalso; apply H; reflexivity);
    try (intros _; auto).
Qed.

(** The toggle pressed in the middle of a game, and pressed before the
    first game. *)
Lemma toggleWallMode_needs_idle_game_witness :
  SnakeB.toggleWallMode
    (SnakeB.mkState [mkCell 12 10] (mkCell 1 0) (mkCell 15 15) false 0 false
                    true SnakeB.wall) =
    SnakeB.mkState [mkCell 12 10] (mkCell 1 0) (mkCell 15 15) false 0 false true
                   SnakeB.wall
  /\
  SnakeB.wallMode (SnakeB.toggleWallMode SnakeB.init) <>
    SnakeB.wallMode SnakeB.init.
Proof.
  split.
  - apply (proj1 (toggleWallMode_needs_idle_game
                    (SnakeB.mkState [mkCell 12 10] (mkCell 1 0) (mkCell 15 15)
                                    false 0 false true SnakeB.wall))).
    left; reflexivity.
  - apply (proj1 (proj2 (toggleWallMode_needs_idle_game SnakeB.init))).
    left; reflexivity.
Defined.

(** ** Reinitialising the game *)

(** C9.  Whatever the state before: [start] and [restart] of variant A
    return the start snake, the start heading, score 0, the initial delay,
    a running game that is not over, and a food that is no cell of the
    start snake; the Reset button returns the same with a game that is not
    running.  Both return as soon as the supply holds a free round.
    [resetGame] of variant B returns the initial snake and heading, score
    0, a started game that is neither paused nor over, and the food at
    (15,15), which is no cell of the initial snake; the delay of variant B
    is always the initial one. *)
Theorem reinitialising_restores_initial_values :
  (forall (s : SnakeA.State) (rnd : list Z),
      (exists c, In c (rounds rnd) /\ ~ In c SnakeA.START_SNAKE) ->
      exists newFood rest,
        SnakeA.start s rnd =
          Ok (SnakeA.mkState SnakeA.START_SNAKE SnakeA.START_DIRECTION newFood
                             true SnakeA.INITIAL_SPEED 0 false, rest) /\
        SnakeA.restart s rnd = SnakeA.start s rnd /\
        SnakeA.reset s rnd =
          Ok (SnakeA.mkState SnakeA.START_SNAKE SnakeA.START_DIRECTION newFood
                             false SnakeA.INITIAL_SPEED 0 false, rest) /\
        ~ In newFood SnakeA.START_SNAKE)
  /\
  (forall (s : SnakeB.State),
      SnakeB.snake (SnakeB.resetGame s) = SnakeB.INITIAL_SNAKE /\
      SnakeB.direction (SnakeB.resetGame s) = SnakeB.INITIAL_DIRECTION /\
      SnakeB.score (SnakeB.resetGame s) = 0 /\
      SnakeB.speed (SnakeB.resetGame s) = SnakeB.INITIAL_SPEED /\
      SnakeB.status (SnakeB.resetGame s) = SnakeB.Running /\
      SnakeB.food (SnakeB.resetGame s) = mkCell 15 15 /\
      ~ In (SnakeB.food (SnakeB.resetGame s)) (SnakeB.snake (SnakeB.resetGame s))).
Proof.
  split.
  - intros s rnd [c [Hc Hfree]].
    destruct (sample_returns (fun c => existsb (cell_eqb c) SnakeA.START_SNAKE) rnd)
      as [newFood [rest Hs]].
    { exists c; split; [assumption | apply has_not_In; assumption]. }
    exists newFood, rest.
    unfold SnakeA.restart, SnakeA.start, SnakeA.reset, bind, SnakeA.randomFood.
    rewrite Hs; repeat split.
    apply sample_free in Hs; destruct Hs as [Hs _].
    apply has_not_In; exact Hs.
  - intros s; repeat split.
    simpl; intros [H | []]; discriminate H.
Qed.

(** The game of variant A is over after a crash at the right wall; the
    supply first draws a cell of the start snake, then a free one. *)
Lemma reinitialising_restores_initial_values_witness :
  exists newFood rest,
    SnakeA.start
      (SnakeA.mkState [mkCell 19 10; mkCell 18 10; mkCell 17 10] (mkCell 1 0)
                      (mkCell 3 3) false 130 5 true) [8; 10; 4; 6; 1] =
      Ok (SnakeA.mkState SnakeA.START_SNAKE SnakeA.START_DIRECTION newFood
                         true SnakeA.INITIAL_SPEED 0 false, rest) /\
    ~ In newFood SnakeA.START_SNAKE.
Proof.
  destruct (proj1 reinitialising_restores_initial_values
              (SnakeA.mkState [mkCell 19 10; mkCell 18 10; mkCell 17 10]
                              (mkCell 1 0) (mkCell 3 3) false 130 5 true)
              [8; 10; 4; 6; 1])
    as [newFood [rest [Hstart [_ [_ Hfree]]]]].
  - exists (mkCell 4 6); split.
    + simpl; auto.
    + simpl; intros [H | [H | [H | []]]]; discriminate H.
  - exists newFood, rest; split; assumption.
Defined.

(** ** Variant A: the delay between ticks *)

(** A tick leaves the delay alone or, when it eats, takes four off it
    without going below 40. *)
Lemma tickA_speed (s : SnakeA.State) (rnd : list Z) (s' : SnakeA.State)
      (rnd' : list Z) :
  SnakeA.tick s rnd = Ok (s', rnd') ->
  SnakeA.speed s' = SnakeA.speed s \/
  (SnakeA.speed s' = Z.max 40 (SnakeA.speed s - 4) /\
   length (SnakeA.snake s') = S (length (SnakeA.snake s))).
Proof.
  unfold SnakeA.tick.
  destruct (negb (SnakeA.running s));
    [unfold ret; intros H; injection H as <- _; auto |].
  destruct (SnakeA.gameOver s);
    [unfold ret; intros H; injection H as <- _; auto |].
  destruct (SnakeA.snake s) as [|h t] eqn:Hsnake; [discriminate |].
  destruct (outside _ _);
    [unfold ret; intros H; injection H as <- _; auto |].
  destruct (existsb _ _);
    [unfold ret; intros H; injection H as <- _; auto |].
  destruct (negb _);
    [unfold ret; intros H; injection H as <- _; auto |].
  unfold bind, ret.
  destruct (SnakeA.randomFood _ rnd) as [[f r] | |]; try discriminate.
  intros H; injection H as <- _; right; split; reflexivity.
Qed.

Lemma stepA_speed (s : SnakeA.State) (e : SnakeA.Event) (rnd : list Z)
      (s' : SnakeA.State) (rnd' : list Z) :
  40 <= SnakeA.speed s <= 1000 ->
  SnakeA.step s e rnd = Ok (s', rnd') ->
  40 <= SnakeA.speed s' <= 1000.
Proof.
  intros Hs Hstep; destruct e; simpl in Hstep.
  - injection Hstep as <- _; unfold SnakeA.handleKey.
    destruct (SnakeA.keymap key); [| assumption].
    destruct (_ && _); assumption.
  - destruct (tickA_speed s rnd s' rnd' Hstep) as [-> | [-> _]]; lia.
  - unfold SnakeA.start, bind, ret in Hstep.
    destruct (SnakeA.randomFood _ rnd) as [[f r] | |]; try discriminate.
    injection Hstep as <- _; simpl; unfold SnakeA.INITIAL_SPEED; lia.
  - injection Hstep as <- _; assumption.
  - injection Hstep as <- _; unfold SnakeA.resume.
    destruct (negb _); assumption.
  - unfold SnakeA.restart, SnakeA.start, bind, ret in Hstep.
    destruct (SnakeA.randomFood _ rnd) as [[f r] | |]; try discriminate.
    injection Hstep as <- _; simpl; unfold SnakeA.INITIAL_SPEED; lia.
  - unfold SnakeA.reset, bind, ret in Hstep.
    destruct (SnakeA.randomFood _ rnd) as [[f r] | |]; try discriminate.
    injection Hstep as <- _; simpl; unfold SnakeA.INITIAL_SPEED; lia.
  - injection Hstep as <- _; simpl; lia.
  - injection Hstep as <- _; simpl; lia.
Qed.

Lemma runA_speed (evs : list SnakeA.Event) :
  forall (s : SnakeA.State) (rnd : list Z) (s' : SnakeA.State) (rnd' : list Z),
    40 <= SnakeA.speed s <= 1000 ->
    SnakeA.run s evs rnd = Ok (s', rnd') ->
    40 <= SnakeA.speed s' <= 1000.
Proof.
  induction evs as [|e evs IH]; intros s rnd s' rnd' Hs Hrun; simpl in Hrun.
  - injection Hrun as <- _; assumption.
  - unfold bind in Hrun.
    destruct (SnakeA.step s e rnd) as [[s1 rnd1] | |] eqn:Hstep; try discriminate.
    apply (IH s1 rnd1 s' rnd'); [| assumption].
    exact (stepA_speed s e rnd s1 rnd1 Hs Hstep).
Qed.

(** C10.  In variant A the delay of the first render is 150.  A tick that
    eats (running game, candidate head on the grid, off the snake and on
    the food) takes 4 off the delay without going below 40, and it returns
    as soon as the supply holds a free round; a tick that does not grow
    the snake leaves the delay alone; no tick does anything else to it.
    Faster takes 20 off it without going below 40; Slower adds 20 without
    going above 1000; start, restart and reset put it back to 150.  So
    after any events, with any draws, the delay of a game that began at
    the first render lies between 40 and 1000. *)
Theorem speed_stays_in_range :
  (forall rnd s0 rnd0,
      SnakeA.init rnd = Ok (s0, rnd0) -> SnakeA.speed s0 = 150) /\
  (forall s rnd s' rnd',
      SnakeA.tick s rnd = Ok (s', rnd') ->
      SnakeA.speed s' = SnakeA.speed s \/
      (SnakeA.speed s' = Z.max 40 (SnakeA.speed s - 4) /\
       length (SnakeA.snake s') = S (length (SnakeA.snake s)))) /\
  (forall s h t rnd,
      SnakeA.isRunning s = true -> SnakeA.snake s = h :: t ->
      let newHead := cell_add h (SnakeA.direction s) in
      outside SnakeA.BOARD_SIZE newHead = false ->
      ~ In newHead (SnakeA.snake s) -> newHead = SnakeA.food s ->
      (forall s' rnd',
          SnakeA.tick s rnd = Ok (s', rnd') ->
          SnakeA.speed s' = Z.max 40 (SnakeA.speed s - 4)) /\
      ((exists c, In c (rounds rnd) /\ ~ In c (newHead :: SnakeA.snake s)) ->
       exists s' rnd',
         SnakeA.tick s rnd = Ok (s', rnd') /\
         SnakeA.speed s' = Z.max 40 (SnakeA.speed s - 4))) /\
  (forall s rnd s' rnd',
      SnakeA.tick s rnd = Ok (s', rnd') ->
      length (SnakeA.snake s') = length (SnakeA.snake s) ->
      SnakeA.speed s' = SnakeA.speed s) /\
  (forall s, SnakeA.speed (SnakeA.faster s) = Z.max 40 (SnakeA.speed s - 20)) /\
  (forall s, SnakeA.speed (SnakeA.slower s) = Z.min 1000 (SnakeA.speed s + 20)) /\
  (forall s rnd s' rnd',
      SnakeA.start s rnd = Ok (s', rnd') \/
      SnakeA.restart s rnd = Ok (s', rnd') \/
      SnakeA.reset s rnd = Ok (s', rnd') ->
      SnakeA.speed s' = 150) /\
  (forall rnd s0 rnd0 evs s rnd',
      SnakeA.init rnd = Ok (s0, rnd0) ->
      SnakeA.run s0 evs rnd0 = Ok (s, rnd') ->
      40 <= SnakeA.speed s <= 1000).
Proof.
  assert (Hinit : forall rnd s0 rnd0,
             SnakeA.init rnd = Ok (s0, rnd0) -> SnakeA.speed s0 = 150).
  { intros rnd s0 rnd0; unfold SnakeA.init, bind, ret.
    destruct (SnakeA.randomFood _ rnd) as [[f r] | |]; try discriminate.
    intros H; injection H as <- _; reflexivity. }
  split; [exact Hinit |].
  split; [exact tickA_speed |].
  split.
  { intros s h t rnd Hrun Hsnake newHead Hout Hin Hfood; split.
    - intros s' rnd'.
      rewrite (tickA_eat s h t Hrun Hsnake rnd Hout Hin Hfood).
      unfold bind, ret.
      destruct (SnakeA.randomFood _ rnd) as [[f r] | |]; try discriminate.
      intros H; injection H as <- _; reflexivity.
    - intros Hfree.
      destruct (tickA_eats s h t rnd Hrun Hsnake Hout Hin Hfood Hfree)
        as [s' [rest [Ht [_ [_ [_ [Hsp _]]]]]]].
      exists s', rest; split; assumption. }
  split.
  { intros s rnd s' rnd' Ht Hlen.
    destruct (tickA_speed s rnd s' rnd' Ht) as [H | [_ H]]; [exact H | lia]. }
  split; [reflexivity |].
  split; [reflexivity |].
  split.
  - intros s rnd s' rnd'.
    unfold SnakeA.restart, SnakeA.start, SnakeA.reset, bind, ret.
    destruct (SnakeA.randomFood _ rnd) as [[f r] | |];
      intros [H | [H | H]]; try discriminate H;
      injection H as <- _; reflexivity.
  - intros rnd s0 rnd0 evs s rnd' H0 Hrun.
    apply (runA_speed evs s0 rnd0 s rnd'); [| assumption].
    rewrite (Hinit rnd s0 rnd0 H0); lia.
Qed.

(** A game that is started, slowed down twice, eats the food two cells
    ahead and is sped up once: 150, 170, 190, 186, 166.  The eating tick
    is the one from 190 to 186; at the floor it goes from 42 to 40. *)
Lemma speed_stays_in_range_witness :
  (exists s,
      SnakeA.run
        (SnakeA.mkState SnakeA.START_SNAKE SnakeA.START_DIRECTION (mkCell 15 15)
                        false 150 0 false)
        [SnakeA.Start; SnakeA.Slower; SnakeA.Slower; SnakeA.Tick; SnakeA.Tick;
         SnakeA.Faster] [11; 10; 2; 2] = Ok (s, []) /\
      SnakeA.speed s = 166 /\ 40 <= SnakeA.speed s <= 1000)
  /\
  (exists s' rnd',
      SnakeA.tick
        (SnakeA.mkState [mkCell 10 10; mkCell 9 10; mkCell 8 10] (mkCell 1 0)
                        (mkCell 11 10) true 190 0 false) [2; 2] = Ok (s', rnd') /\
      SnakeA.speed s' = 186)
  /\
  (exists s' rnd',
      SnakeA.tick
        (SnakeA.mkState [mkCell 10 10; mkCell 9 10; mkCell 8 10] (mkCell 1 0)
                        (mkCell 11 10) true 42 0 false) [2; 2] = Ok (s', rnd') /\
      SnakeA.speed s' = 40).
Proof.
  split; [| split].
  - eexists; split; [reflexivity |].
    split; [reflexivity |].
    apply (proj2 (proj2 (proj2 (proj2 (proj2 (proj2 (proj2
                    speed_stays_in_range))))))
             [15; 15; 11; 10; 2; 2]
             (SnakeA.mkState SnakeA.START_SNAKE SnakeA.START_DIRECTION
                             (mkCell 15 15) false 150 0 false)
             [11; 10; 2; 2]
             [SnakeA.Start; SnakeA.Slower; SnakeA.Slower; SnakeA.Tick;
              SnakeA.Tick; SnakeA.Faster]
             _ []).
    + reflexivity.
    + reflexivity.
  - apply (proj1 (proj2 (proj2 speed_stays_in_range))
             (SnakeA.mkState [mkCell 10 10; mkCell 9 10; mkCell 8 10]
                             (mkCell 1 0) (mkCell 11 10) true 190 0 false)
             (mkCell 10 10) [mkCell 9 10; mkCell 8 10] [2; 2]
             eq_refl eq_refl eq_refl).
    + simpl; intros [H | [H | [H | []]]]; discriminate H.
    + reflexivity.
    + exists (mkCell 2 2); split; [simpl; auto |].
      simpl; intros [H | [H | [H | [H | []]]]]; discriminate H.
  - apply (proj1 (proj2 (proj2 speed_stays_in_range))
             (SnakeA.mkState [mkCell 10 10; mkCell 9 10; mkCell 8 10]
                             (mkCell 1 0) (mkCell 11 10) true 42 0 false)
             (mkCell 10 10) [mkCell 9 10; mkCell 8 10] [2; 2]
             eq_refl eq_refl eq_refl).
    + simpl; intros [H | [H | [H | []]]]; discriminate H.
    + reflexivity.
    + exists (mkCell 2 2); split; [simpl; auto |].
      simpl; intros [H | [H | [H | [H | []]]]]; discriminate H.
Defined.

(** * Further properties *)

(** ** The string keys *)

Lemma uint_comma_free (d : Decimal.uint) :
  comma_free (NilEmpty.string_of_uint d).
Proof.
  induction d; simpl; auto; (split; [discriminate | assumption]).
Qed.

Lemma decimal_comma_free (n : Z) : comma_free (decimal n).
Proof.
  unfold decimal; destruct (Z.to_int n) as [d | d]; simpl.
  - apply uint_comma_free.
  - split; [discriminate | apply uint_comma_free].
Qed.

(** Two integers with the same decimal text are equal. *)
Lemma decimal_inj (n m : Z) : decimal n = decimal m -> n = m.
Proof.
  unfold decimal; intros H.
  apply DecimalZ.to_int_inj.
  assert (Hs : Some (Z.to_int n) = Some (Z.to_int m))
    by (rewrite <- !NilEmpty.isi, H; reflexivity).
  injection Hs; auto.
Qed.

(** A text is cut at its first comma in one way only. *)
Lemma comma_split (a a' b b' : string) :
  comma_free a -> comma_free a' ->
  (a ++ "," ++ b)%string = (a' ++ "," ++ b')%string ->
  a = a' /\ b = b'.
Proof.
  revert a'; induction a as [|c a IH]; intros [|c' a'] Ha Ha' H; simpl in *.
  - injection H; auto.
  - injection H as Hc _; destruct Ha' as [Hne _]; congruence.
  - injection H as Hc _; destruct Ha as [Hne _]; congruence.
  - injection H as Hc Hrest.
    destruct Ha as [_ Ha], Ha' as [_ Ha'].
    destruct (IH a' Ha Ha' Hrest) as [-> ->]; subst; auto.
Qed.

(** Two integer cells with the same key are the same cell. *)
Lemma cellKey_inj (p q : Cell) : cellKey p = cellKey q -> p = q.
Proof.
  unfold cellKey; intros H.
  apply comma_split in H; try apply decimal_comma_free.
  destruct H as [Hx Hy]; apply decimal_inj in Hx, Hy.
  destruct p, q; simpl in *; subst; reflexivity.
Qed.

Lemma cellKey_eqb (p q : Cell) :
  String.eqb (cellKey p) (cellKey q) = cell_eqb p q.
Proof.
  destruct (cell_eqb p q) eqn:E.
  - apply cell_eqb_eq in E; subst; apply String.eqb_refl.
  - apply String.eqb_neq; intros H; apply cellKey_inj in H.
    subst; rewrite cell_eqb_refl in E; discriminate.
Qed.

(** The set of keys holds the key of a cell exactly when the cell is one
    of the cells the keys were made from. *)
Lemma keys_has (c : Cell) (l : list Cell) :
  existsb (String.eqb (cellKey c)) (map cellKey l) = existsb (cell_eqb c) l.
Proof.
  induction l as [|a l IH]; [reflexivity |].
  simpl; rewrite cellKey_eqb, IH; reflexivity.
Qed.

Lemma sample_ext (f g : Cell -> bool) (rnd : list Z) :
  (forall c, f c = g c) -> sample f rnd = sample g rnd.
Proof.
  intros Hfg.
  induction rnd as [| x | x y rest IH] using rounds_ind; simpl; try reflexivity.
  rewrite <- Hfg, IH; reflexivity.
Qed.

(** X1.  [randomFood] written with the set of string keys returns what the
    model that compares coordinates returns, on every list of excluded
    cells and every supply. *)
Theorem randomFoodKeys_refines (excludeCells : list Cell) (rnd : list Z) :
  randomFoodKeys excludeCells rnd = SnakeA.randomFood excludeCells rnd.
Proof.
  unfold randomFoodKeys, SnakeA.randomFood.
  apply sample_ext; intros c; apply keys_has.
Qed.

(** ** The sampling loop, again *)

(** The loop returns [c] and leaves [rest] exactly when the supply is a
    run of taken rounds, then the round of [c], which is free, then
    [rest]. *)
Lemma sample_prefix (taken : Cell -> bool) (rnd : list Z) (c : Cell)
      (rest : list Z) :
  sample taken rnd = Ok (c, rest) <->
  exists pre,
    rnd = pre ++ cx c :: cy c :: rest /\ Nat.Even (length pre) /\
    forallb taken (rounds pre) = true /\ taken c = false.
Proof.
  split.
  - induction rnd as [| x | x y rnd' IH] using rounds_ind; simpl; try discriminate.
    destruct (taken (mkCell x y)) eqn:Ht.
    + intros H; destruct (IH H) as [pre [-> [He [Hall Hc]]]].
      exists (x :: y :: pre); simpl; rewrite Ht, Hall.
      split; [reflexivity | split; [| auto]].
      destruct He as [k Hk]; exists (S k); lia.
    + intros H; injection H as <- <-.
      exists []; simpl.
      split; [reflexivity | split; [| auto]].
      exists 0%nat; reflexivity.
  - intros [pre [-> [He [Hall Hc]]]]; revert He Hall.
    destruct c as [x0 y0].
    induction pre as [| x | x y pre IH] using rounds_ind; simpl.
    + intros _ _; rewrite Hc; reflexivity.
    + intros [k Hk]; lia.
    + intros [k Hk] Hall; apply andb_true_iff in Hall; destruct Hall as [Hx Hall].
      rewrite Hx; apply IH; [| assumption].
      exists (Nat.pred k); lia.
Qed.

Lemma generateFood_randomFood (excl : list Cell) (rnd : list Z) :
  SnakeB.generateFood excl rnd = SnakeA.randomFood excl rnd.
Proof.
  unfold SnakeB.generateFood, SnakeA.randomFood.
  apply sample_ext; intros p.
  destruct (existsb (cell_eqb p) excl) eqn:E.
  - apply has_In in E; apply some_In; assumption.
  - apply has_not_In in E; apply some_not_In; assumption.
Qed.

(** X2.  Both variants sample the food in the same way: [randomFood] returns
    [c] and leaves [rest] exactly when the supply is an even number of
    draws whose rounds are all excluded cells, then the draws of [c],
    which is not excluded, then [rest]; and [generateFood] returns what
    [randomFood] returns. *)
Theorem food_sampler_returns_first_free (excl : list Cell) (rnd : list Z)
        (c : Cell) (rest : list Z) :
  (SnakeA.randomFood excl rnd = Ok (c, rest) <->
   exists pre,
     rnd = pre ++ cx c :: cy c :: rest /\
     Nat.Even (length pre) /\
     (forall p, In p (rounds pre) -> In p excl) /\
     ~ In c excl)
  /\
  SnakeB.generateFood excl rnd = SnakeA.randomFood excl rnd.
Proof.
  split; [| apply generateFood_randomFood].
  unfold SnakeA.randomFood; rewrite sample_prefix; split.
  - intros [pre [Hr [He [Hall Hc]]]]; exists pre.
    split; [exact Hr | split; [exact He | split]].
    + intros p Hp; rewrite forallb_forall in Hall.
      apply has_In; apply Hall; assumption.
    + apply has_not_In; assumption.
  - intros [pre [Hr [He [Hall Hc]]]]; exists pre.
    split; [exact Hr | split; [exact He | split]].
    + apply forallb_forall; intros p Hp; apply has_In; auto.
    + apply has_not_In; assumption.
Qed.

(** ** The grid *)

Lemma range_In (n x : Z) : In x (range n) <-> 0 <= x < n.
Proof.
  unfold range; rewrite in_map_iff; split.
  - intros [k [<- Hk]]; apply in_seq in Hk; lia.
  - intros Hx; exists (Z.to_nat x); split; [lia |].
    apply in_seq; lia.
Qed.

Lemma gridCells_In (size : Z) (c : Cell) :
  In c (gridCells size) <-> on_grid size c.
Proof.
  unfold gridCells, on_grid; rewrite in_flat_map; split.
  - intros [y [Hy Hc]]; apply in_map_iff in Hc; destruct Hc as [x [<- Hx]].
    apply range_In in Hy, Hx; simpl; auto.
  - intros [Hx Hy]; exists (cy c); split; [apply range_In; assumption |].
    apply in_map_iff; exists (cx c); split; [destruct c; reflexivity |].
    apply range_In; assumption.
Qed.

Lemma rounds_fair (size : Z) (rnd : list Z) (c : Cell) :
  fair size rnd -> In c (rounds rnd) -> on_grid size c.
Proof.
  unfold fair.
  induction rnd as [| x | x y rnd' IH] using rounds_ind; simpl; try contradiction.
  intros Hf [<- | Hin].
  - inversion Hf as [| ? ? Hx Hf']; inversion Hf' as [| ? ? Hy _]; subst.
    split; assumption.
  - inversion Hf as [| ? ? _ Hf']; inversion Hf' as [| ? ? _ Hf'']; subst.
    apply IH; assumption.
Qed.

(** X3.  When the excluded cells cover the whole grid, no supply the random
    source can produce makes the sampler return: in both variants the
    loop is still running when the supply ends, however long it is. *)
Theorem food_sampler_spins_on_full_board (excl : list Cell) (rnd : list Z) :
  (forall c, on_grid 20 c -> In c excl) ->
  fair 20 rnd ->
  SnakeA.randomFood excl rnd = Spinning /\
  SnakeB.generateFood excl rnd = Spinning.
Proof.
  intros Hfull Hfair.
  assert (H : SnakeA.randomFood excl rnd = Spinning).
  { apply sample_spins; intros c Hc; apply has_In, Hfull.
    exact (rounds_fair 20 rnd c Hfair Hc). }
  split; [exact H |].
  rewrite generateFood_randomFood; exact H.
Qed.

(** All four hundred cells are excluded and four rounds are drawn. *)
Lemma food_sampler_spins_on_full_board_witness :
  SnakeA.randomFood (gridCells 20) [3; 4; 19; 0; 7; 7; 0; 19] = Spinning /\
  SnakeB.generateFood (gridCells 20) [3; 4; 19; 0; 7; 7; 0; 19] = Spinning.
Proof.
  apply food_sampler_spins_on_full_board.
  - intros c Hc; apply gridCells_In; exact Hc.
  - unfold fair; repeat constructor; lia.
Defined.

(** ** Lists without their last element *)

Lemma removelast_In (c : Cell) (l : list Cell) :
  In c (removelast l) -> In c l.
Proof.
  induction l as [|a l IH]; [contradiction |].
  destruct l as [|b l]; [contradiction |].
  change (removelast (a :: b :: l)) with (a :: removelast (b :: l)).
  intros [-> | H]; [left; reflexivity | right; apply IH; assumption].
Qed.

Lemma removelast_NoDup (l : list Cell) : NoDup l -> NoDup (removelast l).
Proof.
  induction l as [|a l IH]; [intros; constructor |].
  destruct l as [|b l]; [intros; constructor |].
  change (removelast (a :: b :: l)) with (a :: removelast (b :: l)).
  intros H; inversion H as [| ? ? Hnotin Hnd]; subst.
  constructor; [| apply IH; assumption].
  intros Hin; apply Hnotin; apply removelast_In; assumption.
Qed.

Lemma removelast_Forall (P : Cell -> Prop) (l : list Cell) :
  Forall P l -> Forall P (removelast l).
Proof.
  rewrite !Forall_forall; intros H c Hc; apply H, removelast_In; assumption.
Qed.

(** ** Variant A: what every reachable state satisfies *)

(** The four ways a tick of variant A returns. *)
Lemma tickA_cases (s : SnakeA.State) (rnd : list Z) (s' : SnakeA.State)
      (rnd' : list Z) :
  SnakeA.tick s rnd = Ok (s', rnd') ->
  (s' = s /\ rnd' = rnd) \/
  (s' = SnakeA.crashed s /\ rnd' = rnd) \/
  exists h t,
    SnakeA.snake s = h :: t /\
    SnakeA.running s = true /\ SnakeA.gameOver s = false /\
    let newHead := cell_add h (SnakeA.direction s) in
    outside SnakeA.BOARD_SIZE newHead = false /\
    ~ In newHead (SnakeA.snake s) /\
    ((newHead <> SnakeA.food s /\ rnd' = rnd /\
      s' = SnakeA.mkState (newHead :: removelast (SnakeA.snake s))
                          (SnakeA.direction s) (SnakeA.food s) (SnakeA.running s)
                          (SnakeA.speed s) (SnakeA.score s) (SnakeA.gameOver s))
     \/
     (newHead = SnakeA.food s /\
      exists newFood,
        SnakeA.randomFood (newHead :: SnakeA.snake s) rnd = Ok (newFood, rnd') /\
        s' = SnakeA.mkState (newHead :: SnakeA.snake s) (SnakeA.direction s)
                            newFood (SnakeA.running s)
                            (Z.max 40 (SnakeA.speed s - 4)) (SnakeA.score s + 1)
                            (SnakeA.gameOver s))).
Proof.
  unfold SnakeA.tick.
  destruct (SnakeA.running s) eqn:Hr; simpl;
    [| unfold ret; intros H; injection H as <- <-; auto].
  destruct (SnakeA.gameOver s) eqn:Hg;
    [unfold ret; intros H; injection H as <- <-; auto |].
  destruct (SnakeA.snake s) as [|h t] eqn:Hsnake; [discriminate |].
  destruct (outside _ _) eqn:Hout;
    [unfold ret; intros H; injection H as <- <-; auto |].
  destruct (existsb _ _) eqn:Hin;
    [unfold ret; intros H; injection H as <- <-; auto |].
  apply some_not_In in Hin.
  destruct (cell_eqb _ (SnakeA.food s)) eqn:Hf; simpl.
  - apply cell_eqb_eq in Hf.
    unfold bind, ret.
    destruct (SnakeA.randomFood _ rnd) as [[f r] | |] eqn:Hs; try discriminate.
    intros H; injection H as <- <-.
    right; right; exists h, t; repeat split; auto.
    right; split; [assumption |]; exists f; split; [assumption | reflexivity].
  - unfold ret; intros H; injection H as <- <-.
    right; right; exists h, t; repeat split; auto.
    left; repeat split; auto.
    intros E; rewrite E, cell_eqb_refl in Hf; discriminate.
Qed.

Lemma START_SNAKE_wellformed (f : Cell) (r : bool) :
  ~ In f SnakeA.START_SNAKE ->
  wellformedA (SnakeA.mkState SnakeA.START_SNAKE SnakeA.START_DIRECTION f r
                              SnakeA.INITIAL_SPEED 0 false).
Proof.
  intros Hf; unfold wellformedA; simpl.
  split; [unfold unit_heading; auto |].
  split.
  { repeat constructor; simpl; intuition discriminate. }
  split.
  { repeat constructor; simpl; unfold SnakeA.BOARD_SIZE; lia. }
  split; [exact Hf |].
  split; [lia |].
  split; [reflexivity | apply andb_false_r].
Qed.

Lemma randomFood_wellformed (s : SnakeA.State) (rnd : list Z) (r : bool)
      (s' : SnakeA.State) (rnd' : list Z) :
  (newFood <- SnakeA.randomFood SnakeA.START_SNAKE ;;
   ret (SnakeA.mkState SnakeA.START_SNAKE SnakeA.START_DIRECTION newFood r
                       SnakeA.INITIAL_SPEED 0 false)) rnd = Ok (s', rnd') ->
  wellformedA s'.
Proof.
  unfold bind, ret.
  destruct (SnakeA.randomFood _ rnd) as [[f r'] | |] eqn:Hs; try discriminate.
  intros H; injection H as <- _.
  apply START_SNAKE_wellformed.
  apply sample_free in Hs; destruct Hs as [Hs _].
  apply has_not_In; exact Hs.
Qed.

Lemma stepA_wellformed (s : SnakeA.State) (e : SnakeA.Event) (rnd : list Z)
      (s' : SnakeA.State) (rnd' : list Z) :
  wellformedA s -> SnakeA.step s e rnd = Ok (s', rnd') -> wellformedA s'.
Proof.
  intros Hwf Hstep.
  pose proof Hwf as [Hu [Hnd [Hgrid [Hfood [Hsc [Hlen Hflags]]]]]].
  destruct e; simpl in Hstep.
  - injection Hstep as <- _.
    destruct (handleKey_keeps_or_turns s key Hu) as [Hu' _].
    split; [exact Hu' |].
    unfold SnakeA.handleKey in *; destruct (SnakeA.keymap key); [| tauto].
    destruct ((_ =? 0) && (_ =? 0)); simpl; tauto.
  - destruct (tickA_cases s rnd s' rnd' Hstep)
      as [[-> _] | [[-> _] | [h [t [Hsnake [Hr [Hg [Hout [Hin Hmove]]]]]]]]].
    + exact Hwf.
    + unfold wellformedA; simpl; tauto.
    + apply outside_false in Hout.
      destruct Hmove as [[Hne [_ ->]] | [Heq [f [Hs ->]]]];
        unfold wellformedA; simpl.
      * split; [exact Hu |].
        split.
        { constructor; [| apply removelast_NoDup; exact Hnd].
          intros H; apply Hin, removelast_In; exact H. }
        split.
        { constructor; [exact Hout | apply removelast_Forall; exact Hgrid]. }
        split.
        { intros [H | H]; [congruence |].
          apply Hfood, removelast_In; exact H. }
        split; [exact Hsc |].
        split; [| exact Hflags].
        rewrite Hsnake, removelast_length; rewrite Hsnake in Hlen.
        simpl in Hlen; exact Hlen.
      * apply sample_free in Hs; destruct Hs as [Hs _]; apply has_not_In in Hs.
        split; [exact Hu |].
        split; [constructor; assumption |].
        split; [constructor; assumption |].
        split; [exact Hs |].
        split; [lia |].
        split; [| exact Hflags].
        change (length (cell_add h (SnakeA.direction s) :: SnakeA.snake s))
          with (S (length (SnakeA.snake s))); lia.
  - exact (randomFood_wellformed s rnd true s' rnd' Hstep).
  - injection Hstep as <- _; unfold wellformedA; simpl; tauto.
  - injection Hstep as <- _; unfold SnakeA.resume.
    destruct (SnakeA.gameOver s) eqn:Hg; simpl; [exact Hwf |].
    unfold wellformedA; simpl; intuition auto.
  - exact (randomFood_wellformed s rnd true s' rnd' Hstep).
  - exact (randomFood_wellformed s rnd false s' rnd' Hstep).
  - injection Hstep as <- _; unfold wellformedA; simpl; tauto.
  - injection Hstep as <- _; unfold wellformedA; simpl; tauto.
Qed.

Lemma reachableA_wellformed (s : SnakeA.State) :
  reachableA s -> wellformedA s.
Proof.
  induction 1 as [rnd s rnd' Hinit | s e rnd s' rnd' _ IH Hstep].
  - exact (randomFood_wellformed s rnd false s rnd' Hinit).
  - exact (stepA_wellformed s e rnd s' rnd' IH Hstep).
Qed.

(** The end of a run that starts in a reachable state is reachable. *)
Lemma reachableA_run (evs : list SnakeA.Event) :
  forall (s : SnakeA.State) (rnd : list Z) (s' : SnakeA.State) (rnd' : list Z),
    reachableA s -> SnakeA.run s evs rnd = Ok (s', rnd') -> reachableA s'.
Proof.
  induction evs as [|e evs IH]; intros s rnd s' rnd' Hs Hrun; simpl in Hrun.
  - injection Hrun as <- _; assumption.
  - unfold bind in Hrun.
    destruct (SnakeA.step s e rnd) as [[s1 rnd1] | |] eqn:Hstep; try discriminate.
    apply (IH s1 rnd1 s' rnd'); [| assumption].
    exact (reachA_step s e rnd s1 rnd1 Hs Hstep).
Qed.

(** A snake of distinct cells of the grid has at most as many cells as
    the grid. *)
Lemma distinct_on_grid_length (size : Z) (l : list Cell) :
  NoDup l -> Forall (on_grid size) l ->
  (length l <= length (gridCells size))%nat.
Proof.
  intros Hnd Hgrid; apply NoDup_incl_length; [exact Hnd |].
  intros c Hc; apply gridCells_In.
  rewrite Forall_forall in Hgrid; apply Hgrid; exact Hc.
Qed.

(** X4.  In every state a game of variant A can reach, the food lies on no
    cell of the snake. *)
Theorem foodA_never_on_snake (s : SnakeA.State) :
  reachableA s -> ~ In (SnakeA.food s) (SnakeA.snake s).
Proof.
  intros H; apply reachableA_wellformed in H.
  destruct H as [_ [_ [_ [Hfood _]]]]; exact Hfood.
Qed.

(** The game is started with food two cells ahead and has eaten it. *)
Lemma foodA_never_on_snake_witness :
  ~ In (mkCell 2 2) [mkCell 11 10; mkCell 10 10; mkCell 9 10; mkCell 8 10].
Proof.
  apply (foodA_never_on_snake
           (SnakeA.mkState [mkCell 11 10; mkCell 10 10; mkCell 9 10; mkCell 8 10]
                           (mkCell 1 0) (mkCell 2 2) true 146 1 false)).
  apply (reachableA_run [SnakeA.Start; SnakeA.Tick; SnakeA.Tick]
           (SnakeA.mkState SnakeA.START_SNAKE SnakeA.START_DIRECTION
                           (mkCell 15 15) false 150 0 false)
           [11; 10; 2; 2] _ []).
  - apply (reachA_init [15; 15; 11; 10; 2; 2] _ [11; 10; 2; 2]); reflexivity.
  - reflexivity.
Defined.

(** X5.  In every state a game of variant A can reach, the cells of the snake
    are pairwise distinct cells of the grid, so the snake has at most 400
    cells. *)
Theorem snakeA_distinct_on_grid (s : SnakeA.State) :
  reachableA s ->
  NoDup (SnakeA.snake s) /\
  Forall (on_grid SnakeA.BOARD_SIZE) (SnakeA.snake s) /\
  (length (SnakeA.snake s) <= 400)%nat.
Proof.
  intros H; apply reachableA_wellformed in H.
  destruct H as [_ [Hnd [Hgrid _]]].
  split; [exact Hnd | split; [exact Hgrid |]].
  exact (distinct_on_grid_length SnakeA.BOARD_SIZE _ Hnd Hgrid).
Qed.

Lemma snakeA_distinct_on_grid_witness :
  NoDup [mkCell 11 10; mkCell 10 10; mkCell 9 10; mkCell 8 10] /\
  Forall (on_grid 20) [mkCell 11 10; mkCell 10 10; mkCell 9 10; mkCell 8 10] /\
  (4 <= 400)%nat.
Proof.
  apply (snakeA_distinct_on_grid
           (SnakeA.mkState [mkCell 11 10; mkCell 10 10; mkCell 9 10; mkCell 8 10]
                           (mkCell 1 0) (mkCell 2 2) true 146 1 false)).
  apply (reachableA_run [SnakeA.Start; SnakeA.Tick; SnakeA.Tick]
           (SnakeA.mkState SnakeA.START_SNAKE SnakeA.START_DIRECTION
                           (mkCell 15 15) false 150 0 false)
           [11; 10; 2; 2] _ []).
  - apply (reachA_init [15; 15; 11; 10; 2; 2] _ [11; 10; 2; 2]); reflexivity.
  - reflexivity.
Defined.

(** X6.  In every state a game of variant A can reach, the score is the number
    of cells the snake has grown by since its three start cells; it lies
    between 0 and 397. *)
Theorem scoreA_counts_growth (s : SnakeA.State) :
  reachableA s ->
  SnakeA.score s = Z.of_nat (length (SnakeA.snake s)) - 3 /\
  0 <= SnakeA.score s <= 397.
Proof.
  intros H; apply reachableA_wellformed in H.
  destruct H as [_ [Hnd [Hgrid [_ [Hsc [Hlen _]]]]]].
  pose proof (distinct_on_grid_length SnakeA.BOARD_SIZE _ Hnd Hgrid) as Hmax.
  change (length (gridCells SnakeA.BOARD_SIZE)) with 400%nat in Hmax.
  lia.
Qed.

Lemma scoreA_counts_growth_witness :
  1 = Z.of_nat 4 - 3 /\ 0 <= 1 <= 397.
Proof.
  apply (scoreA_counts_growth
           (SnakeA.mkState [mkCell 11 10; mkCell 10 10; mkCell 9 10; mkCell 8 10]
                           (mkCell 1 0) (mkCell 2 2) true 146 1 false)).
  apply (reachableA_run [SnakeA.Start; SnakeA.Tick; SnakeA.Tick]
           (SnakeA.mkState SnakeA.START_SNAKE SnakeA.START_DIRECTION
                           (mkCell 15 15) false 150 0 false)
           [11; 10; 2; 2] _ []).
  - apply (reachA_init [15; 15; 11; 10; 2; 2] _ [11; 10; 2; 2]); reflexivity.
  - reflexivity.
Defined.

(** X7.  In every state a game of variant A can reach, [running] and
    [gameOver] do not hold together, so the view shows one of three rows
    of buttons: Start and Resume, or Pause, or Restart, each followed by
    Reset, Faster and Slower. *)
Theorem buttonsA_one_of_three_rows (s : SnakeA.State) :
  reachableA s ->
  SnakeA.running s && SnakeA.gameOver s = false /\
  (buttons s = [SnakeA.Start; SnakeA.Resume; SnakeA.Reset; SnakeA.Faster;
                SnakeA.Slower] \/
   buttons s = [SnakeA.Pause; SnakeA.Reset; SnakeA.Faster; SnakeA.Slower] \/
   buttons s = [SnakeA.Restart; SnakeA.Reset; SnakeA.Faster; SnakeA.Slower]).
Proof.
  intros H; apply reachableA_wellformed in H.
  destruct H as [_ [_ [_ [_ [_ [_ Hflags]]]]]].
  split; [exact Hflags |].
  unfold buttons.
  destruct (SnakeA.running s), (SnakeA.gameOver s); simpl in *;
    try discriminate Hflags; auto.
Qed.

(** The started game after a crash into the right wall. *)
Lemma buttonsA_one_of_three_rows_witness :
  buttons (SnakeA.mkState [mkCell 19 10; mkCell 18 10; mkCell 17 10]
                          (mkCell 1 0) (mkCell 3 3) false 150 0 true) =
    [SnakeA.Restart; SnakeA.Reset; SnakeA.Faster; SnakeA.Slower].
Proof.
  destruct (buttonsA_one_of_three_rows
              (SnakeA.mkState [mkCell 19 10; mkCell 18 10; mkCell 17 10]
                              (mkCell 1 0) (mkCell 3 3) false 150 0 true))
    as [_ [H | [H | H]]].
  - apply (reachableA_run
             [SnakeA.Start; SnakeA.Tick; SnakeA.Tick; SnakeA.Tick; SnakeA.Tick;
              SnakeA.Tick; SnakeA.Tick; SnakeA.Tick; SnakeA.Tick; SnakeA.Tick;
              SnakeA.Tick; SnakeA.Tick]
             (SnakeA.mkState SnakeA.START_SNAKE SnakeA.START_DIRECTION
                             (mkCell 15 15) false 150 0 false)
             [3; 3] _ []).
    + apply (reachA_init [15; 15; 3; 3] _ [3; 3]); reflexivity.
    + reflexivity.
  - discriminate H.
  - discriminate H.
  - exact H.
Defined.

Lemma sample_spinning (taken : Cell -> bool) (rnd : list Z) :
  sample taken rnd = Spinning ->
  forall c, In c (rounds rnd) -> taken c = true.
Proof.
  induction rnd as [| x | x y rnd' IH] using rounds_ind; simpl.
  - intros _ c Hc; contradiction.
  - intros _ c Hc; contradiction.
  - destruct (taken (mkCell x y)) eqn:Ht; [| intros Hs; discriminate Hs].
    intros Hs c [<- | Hc]; [exact Ht | apply IH; assumption].
Qed.

(** X8.  In every state a game of variant A can reach, no event throws.  A
    tick fails to return in one case only: the head reaches the food and
    every round of the supply is the food cell or a cell of the snake. *)
Theorem stepA_never_throws (s : SnakeA.State) :
  reachableA s ->
  (forall e rnd, SnakeA.step s e rnd <> TypeError) /\
  (forall rnd,
      SnakeA.tick s rnd = Spinning ->
      SnakeA.isRunning s = true /\
      exists h t,
        SnakeA.snake s = h :: t /\
        cell_add h (SnakeA.direction s) = SnakeA.food s /\
        forall c, In c (rounds rnd) -> c = SnakeA.food s \/ In c (SnakeA.snake s)).
Proof.
  intros H; apply reachableA_wellformed in H.
  destruct H as [_ [_ [_ [_ [Hsc [Hlen _]]]]]].
  assert (Hne : exists h t, SnakeA.snake s = h :: t).
  { destruct (SnakeA.snake s) as [|h t]; [simpl in Hlen; lia | eauto]. }
  destruct Hne as [h [t Hsnake]].
  assert (Htick : forall rnd,
             SnakeA.tick s rnd <> TypeError /\
             (SnakeA.tick s rnd = Spinning ->
              SnakeA.isRunning s = true /\
              cell_add h (SnakeA.direction s) = SnakeA.food s /\
              forall c, In c (rounds rnd) ->
                        c = SnakeA.food s \/ In c (SnakeA.snake s))).
  { intros rnd; unfold SnakeA.tick, SnakeA.isRunning.
    destruct (SnakeA.running s); simpl; [| split; discriminate].
    destruct (SnakeA.gameOver s); simpl; [split; discriminate |].
    rewrite Hsnake.
    destruct (outside _ _); [split; discriminate |].
    destruct (existsb _ _); [split; discriminate |].
    destruct (cell_eqb _ (SnakeA.food s)) eqn:Hf; simpl; [| split; discriminate].
    apply cell_eqb_eq in Hf.
    unfold bind, ret, SnakeA.randomFood.
    destruct (sample _ rnd) as [[f r] | |] eqn:Hs.
    - split; discriminate.
    - exfalso; exact (sample_no_throw _ rnd Hs).
    - split; [discriminate | intros _].
      split; [reflexivity | split; [exact Hf |]].
      intros c Hc; apply (sample_spinning _ rnd Hs) in Hc.
      apply has_In in Hc; rewrite <- Hf; destruct Hc as [<- | Hc]; auto. }
  split.
  - intros e rnd; destruct e; simpl; try discriminate;
      try (unfold SnakeA.restart, SnakeA.start, SnakeA.reset, bind, ret,
           SnakeA.randomFood;
           destruct (sample _ rnd) as [[f r] | |] eqn:Hs; try discriminate;
           exfalso; exact (sample_no_throw _ rnd Hs)).
    apply Htick.
  - intros rnd Hspin; destruct (proj2 (Htick rnd) Hspin) as [Hr [Hf Hall]].
    split; [exact Hr |]; exists h, t; auto.
Qed.

(** The started snake one cell before the food, with a supply that only
    draws the food cell and the head. *)
Lemma stepA_never_throws_witness :
  SnakeA.tick
    (SnakeA.mkState [mkCell 10 10; mkCell 9 10; mkCell 8 10] (mkCell 1 0)
                    (mkCell 11 10) true 150 0 false) [11; 10; 10; 10] <>
    TypeError.
Proof.
  apply (proj1 (stepA_never_throws
                  (SnakeA.mkState [mkCell 10 10; mkCell 9 10; mkCell 8 10]
                                  (mkCell 1 0) (mkCell 11 10) true 150 0 false)
                  (reachableA_run [SnakeA.Start; SnakeA.Tick]
                     (SnakeA.mkState SnakeA.START_SNAKE SnakeA.START_DIRECTION
                                     (mkCell 15 15) false 150 0 false)
                     [11; 10] _ []
                     (reachA_init [15; 15; 11; 10] _ [11; 10] eq_refl) eq_refl))
               SnakeA.Tick [11; 10; 10; 10]).
Defined.

(** X9.  In every state either variant can reach, the heading is one of the
    four unit headings. *)
Theorem heading_always_unit :
  (forall s, reachableA s -> unit_heading (SnakeA.direction s)) /\
  (forall s, SnakeB.reachable s -> unit_heading (SnakeB.direction s)).
Proof.
  split; intros s H.
  - apply reachableA_wellformed in H; destruct H as [Hu _]; exact Hu.
  - apply reachableB_wellformed in H; destruct H as [Hu _]; exact Hu.
Qed.

Lemma heading_always_unit_witness :
  unit_heading (mkCell 0 (-1)) /\ unit_heading (mkCell 0 1).
Proof.
  split.
  - apply (proj1 heading_always_unit
             (SnakeA.mkState SnakeA.START_SNAKE (mkCell 0 (-1)) (mkCell 15 15)
                             false 150 0 false)).
    apply (reachableA_run [SnakeA.Key "w"]
             (SnakeA.mkState SnakeA.START_SNAKE SnakeA.START_DIRECTION
                             (mkCell 15 15) false 150 0 false) [] _ []).
    + apply (reachA_init [15; 15] _ []); reflexivity.
    + reflexivity.
  - apply (proj2 heading_always_unit
             (SnakeB.mkState [mkCell 10 10] (mkCell 0 1) (mkCell 15 15) false 0
                             false true SnakeB.wall)).
    apply (reachableB_run [SnakeB.Key "ArrowDown"] SnakeB.init [] _ []
             SnakeB.reach_init).
    reflexivity.
Defined.

(** ** Variant B: more of what every reachable state satisfies *)

(** The ways a tick of variant B returns. *)
Lemma moveSnake_cases (s : SnakeB.State) (rnd : list Z) (s' : SnakeB.State)
      (rnd' : list Z) :
  SnakeB.moveSnake s rnd = Ok (s', rnd') ->
  (s' = s /\ rnd' = rnd) \/
  (SnakeB.status s = SnakeB.Running /\ s' = SnakeB.crashed s /\ rnd' = rnd) \/
  exists h t,
    SnakeB.snake s = h :: t /\ SnakeB.status s = SnakeB.Running /\
    let newHead := SnakeB.candidate s h in
    on_grid SnakeB.GRID_SIZE newHead /\
    ~ In newHead (SnakeB.snake s) /\
    ((newHead <> SnakeB.food s /\ rnd' = rnd /\
      s' = SnakeB.mkState (newHead :: removelast (SnakeB.snake s))
                          (SnakeB.direction s) (SnakeB.food s) (SnakeB.gameOver s)
                          (SnakeB.score s) (SnakeB.isPaused s)
                          (SnakeB.gameStarted s) (SnakeB.wallMode s))
     \/
     (newHead = SnakeB.food s /\
      exists newFood,
        SnakeB.generateFood (SnakeB.snake s) rnd = Ok (newFood, rnd') /\
        s' = SnakeB.mkState (newHead :: SnakeB.snake s) (SnakeB.direction s)
                            newFood (SnakeB.gameOver s) (SnakeB.score s + 10)
                            (SnakeB.isPaused s) (SnakeB.gameStarted s)
                            (SnakeB.wallMode s))).
Proof.
  intros Hmove.
  destruct (SnakeB.status s) eqn:Hst;
    try (rewrite moveSnake_idle in Hmove by congruence;
         injection Hmove as <- <-; auto).
  destruct (SnakeB.snake s) as [|h t] eqn:Hsnake.
  { apply statusB_running in Hst.
    unfold SnakeB.moveSnake in Hmove; rewrite Hst, Hsnake in Hmove.
    discriminate Hmove. }
  rewrite (moveSnake_candidate s h t Hst Hsnake) in Hmove.
  destruct (match SnakeB.wallMode s with
            | SnakeB.wall => outside SnakeB.GRID_SIZE (SnakeB.candidate s h)
            | SnakeB.passthrough => false
            end) eqn:Hw.
  { injection Hmove as <- <-; auto. }
  assert (Hgrid : on_grid SnakeB.GRID_SIZE (SnakeB.candidate s h)).
  { revert Hw; unfold SnakeB.candidate; destruct (SnakeB.wallMode s).
    - intros Hw; apply outside_false in Hw; exact Hw.
    - intros _; split; apply wrap_range. }
  unfold SnakeB.moveTo in Hmove; rewrite Hsnake in Hmove.
  destruct (existsb _ (h :: t)) eqn:Hin.
  { injection Hmove as <- <-; auto. }
  apply some_not_In in Hin.
  right; right; exists h, t.
  split; [reflexivity | split; [reflexivity |]]; cbv zeta.
  split; [exact Hgrid | split; [exact Hin |]].
  destruct (cell_eqb _ (SnakeB.food s)) eqn:Hf.
  - apply cell_eqb_eq in Hf; right; split; [exact Hf |].
    unfold bind, ret in Hmove.
    destruct (SnakeB.generateFood (h :: t) rnd) as [[f r] | |]; try discriminate.
    injection Hmove as <- <-; exists f; auto.
  - injection Hmove as <- <-; left.
    split; [| auto].
    intros E; rewrite E, cell_eqb_refl in Hf; discriminate.
Qed.

Lemma stepB_sound (s : SnakeB.State) (e : SnakeB.Event) (rnd : list Z)
      (s' : SnakeB.State) (rnd' : list Z) :
  soundB s -> SnakeB.step s e rnd = Ok (s', rnd') -> soundB s'.
Proof.
  intros Hs Hstep; pose proof Hs as [Hnd [Hgrid [Hsc [Hlen Hover]]]].
  destruct e; simpl in Hstep.
  - injection Hstep as <- _; unfold soundB, SnakeB.handleKeyPress.
    destruct (String.eqb key " "); simpl;
      (repeat (split; [assumption |]));
      intros Hg; rewrite (Hover Hg); simpl; reflexivity.
  - destruct (moveSnake_cases s rnd s' rnd' Hstep)
      as [[-> _] | [[Hst [-> _]] | [h [t [Hsnake [Hst [Hc [Hin Hmove]]]]]]]].
    + exact Hs.
    + unfold soundB; simpl; repeat (split; [assumption |]).
      intros _; unfold SnakeB.status in Hst.
      destruct (SnakeB.gameStarted s); [reflexivity | discriminate].
    + destruct Hmove as [[Hne [_ ->]] | [Heq [f [_ ->]]]]; unfold soundB; simpl.
      * split.
        { constructor; [| apply removelast_NoDup; exact Hnd].
          intros H; apply Hin, removelast_In; exact H. }
        split.
        { constructor; [exact Hc | apply removelast_Forall; exact Hgrid]. }
        split; [exact Hsc |].
        split; [| exact Hover].
        rewrite Hsnake, removelast_length; rewrite Hsnake in Hlen.
        simpl in Hlen; exact Hlen.
      * split; [constructor; assumption |].
        split; [constructor; assumption |].
        split; [lia |].
        split; [| exact Hover].
        change (length (SnakeB.candidate s h :: SnakeB.snake s))
          with (S (length (SnakeB.snake s))); lia.
  - injection Hstep as <- _; unfold soundB; simpl.
    split; [repeat constructor; simpl; tauto |].
    split; [repeat constructor; simpl; unfold SnakeB.GRID_SIZE; lia |].
    split; [lia | split; [reflexivity | discriminate]].
  - injection Hstep as <- _; unfold SnakeB.toggleWallMode.
    destruct (negb (SnakeB.gameStarted s) || SnakeB.gameOver s); exact Hs.
Qed.

Lemma reachableB_sound (s : SnakeB.State) : SnakeB.reachable s -> soundB s.
Proof.
  induction 1 as [| s e rnd s' rnd' _ IH Hstep].
  - unfold soundB; simpl.
    split; [repeat constructor; simpl; tauto |].
    split; [repeat constructor; simpl; unfold SnakeB.GRID_SIZE; lia |].
    split; [lia | split; [reflexivity | discriminate]].
  - exact (stepB_sound s e rnd s' rnd' IH Hstep).
Qed.

(** X10.  In every state a game of variant B can reach, in either wall mode,
    the cells of the snake are pairwise distinct cells of the grid, so the
    snake has at most 400 cells. *)
Theorem snakeB_distinct_on_grid (s : SnakeB.State) :
  SnakeB.reachable s ->
  NoDup (SnakeB.snake s) /\
  Forall (on_grid SnakeB.GRID_SIZE) (SnakeB.snake s) /\
  (length (SnakeB.snake s) <= 400)%nat.
Proof.
  intros H; apply reachableB_sound in H.
  destruct H as [Hnd [Hgrid _]].
  split; [exact Hnd | split; [exact Hgrid |]].
  exact (distinct_on_grid_length SnakeB.GRID_SIZE _ Hnd Hgrid).
Qed.

(** The snake has wrapped around the upper edge in pass-through mode. *)
Lemma snakeB_distinct_on_grid_witness :
  NoDup [mkCell 10 19] /\ Forall (on_grid 20) [mkCell 10 19] /\ (1 <= 400)%nat.
Proof.
  apply (snakeB_distinct_on_grid
           (SnakeB.mkState [mkCell 10 19] (mkCell 0 (-1)) (mkCell 15 15) false 0
                           false true SnakeB.passthrough)).
  apply (reachableB_run
           [SnakeB.ToggleWall; SnakeB.Key "ArrowUp"; SnakeB.Tick; SnakeB.Tick;
            SnakeB.Tick; SnakeB.Tick; SnakeB.Tick; SnakeB.Tick; SnakeB.Tick;
            SnakeB.Tick; SnakeB.Tick; SnakeB.Tick; SnakeB.Tick]
           SnakeB.init [] _ [] SnakeB.reach_init).
  reflexivity.
Defined.

(** X11.  In every state a game of variant B can reach, the score is ten times
    the number of cells the snake has grown by since its one initial cell;
    it lies between 0 and 3990. *)
Theorem scoreB_counts_growth (s : SnakeB.State) :
  SnakeB.reachable s ->
  SnakeB.score s = 10 * (Z.of_nat (length (SnakeB.snake s)) - 1) /\
  0 <= SnakeB.score s <= 3990.
Proof.
  intros H; apply reachableB_sound in H.
  destruct H as [Hnd [Hgrid [Hsc [Hlen _]]]].
  pose proof (distinct_on_grid_length SnakeB.GRID_SIZE _ Hnd Hgrid) as Hmax.
  change (length (gridCells SnakeB.GRID_SIZE)) with 400%nat in Hmax.
  lia.
Qed.

(** The game of variant B that has eaten the food at (15,15). *)
Lemma scoreB_counts_growth_witness :
  10 = 10 * (Z.of_nat 2 - 1) /\ 0 <= 10 <= 3990.
Proof.
  apply (scoreB_counts_growth
           (SnakeB.mkState [mkCell 15 15; mkCell 15 14] (mkCell 0 1)
                           (mkCell 3 3) false 10 false true SnakeB.wall)).
  apply (reachableB_run
           [SnakeB.Key "ArrowRight"; SnakeB.Tick; SnakeB.Tick; SnakeB.Tick;
            SnakeB.Tick; SnakeB.Tick; SnakeB.Key "ArrowDown"; SnakeB.Tick;
            SnakeB.Tick; SnakeB.Tick; SnakeB.Tick; SnakeB.Tick]
           SnakeB.init [3; 3] _ [] SnakeB.reach_init).
  reflexivity.
Defined.

(** X12.  In every state a game of variant B can reach, a game that is over has
    been started, and the view draws the overlay of the status and no
    other: the start overlay before the start, the game-over overlay
    after the end, the pause overlay while paused, none while running. *)
Theorem overlaysB_follow_status (s : SnakeB.State) :
  SnakeB.reachable s ->
  (SnakeB.gameOver s = true -> SnakeB.gameStarted s = true) /\
  overlays s =
    match SnakeB.status s with
    | SnakeB.NotStarted => [PressArrowOverlay]
    | SnakeB.Running => []
    | SnakeB.Paused => [PausedOverlay]
    | SnakeB.GameOver => [GameOverOverlay]
    end.
Proof.
  intros H; apply reachableB_sound in H.
  destruct H as [_ [_ [_ [_ Hover]]]].
  split; [exact Hover |].
  unfold overlays, SnakeB.status.
  destruct (SnakeB.gameStarted s), (SnakeB.gameOver s), (SnakeB.isPaused s);
    simpl; try reflexivity;
    specialize (Hover eq_refl); discriminate Hover.
Qed.

(** The game of variant B paused before its first arrow key. *)
Lemma overlaysB_follow_status_witness :
  overlays (SnakeB.mkState [mkCell 10 10] (mkCell 1 0) (mkCell 15 15) false 0
                           true false SnakeB.wall) = [PressArrowOverlay].
Proof.
  apply (proj2 (overlaysB_follow_status
                  (SnakeB.mkState [mkCell 10 10] (mkCell 1 0) (mkCell 15 15)
                                  false 0 true false SnakeB.wall)
                  (reachableB_run [SnakeB.Key " "] SnakeB.init [] _ []
                     SnakeB.reach_init eq_refl))).
Defined.

(** X13.  In every state a game of variant B can reach, no event throws. *)
Theorem stepB_never_throws (s : SnakeB.State) (e : SnakeB.Event) (rnd : list Z) :
  SnakeB.reachable s -> SnakeB.step s e rnd <> TypeError.
Proof.
  intros H; apply reachableB_wellformed in H.
  destruct H as [_ [h [t [Hsnake _]]]].
  destruct e; simpl; try discriminate.
  unfold SnakeB.moveSnake.
  destruct (_ || _); [discriminate |].
  rewrite Hsnake.
  assert (Hto : forall c, SnakeB.moveTo s c rnd <> TypeError).
  { intros c; unfold SnakeB.moveTo.
    destruct (existsb _ _); [discriminate |].
    destruct (cell_eqb _ _); [| discriminate].
    unfold bind, ret, SnakeB.generateFood.
    destruct (sample _ rnd) as [[f r] | |] eqn:Hs; try discriminate.
    exfalso; exact (sample_no_throw _ rnd Hs). }
  destruct (SnakeB.wallMode s); [| apply Hto].
  destruct (outside _ _); [discriminate | apply Hto].
Qed.

Lemma stepB_never_throws_witness :
  SnakeB.step (SnakeB.mkState [mkCell 10 10] (mkCell 1 0) (mkCell 15 15) false
                              0 false true SnakeB.wall) SnakeB.Tick [] <>
    TypeError.
Proof.
  apply stepB_never_throws.
  apply (reachableB_run [SnakeB.Key "ArrowRight"] SnakeB.init [] _ []
           SnakeB.reach_init).
  reflexivity.
Defined.

(** ** Food on the grid *)

(** On a supply of draws of [0, size), the loop returns a cell of the
    grid and leaves such a supply. *)
Lemma sample_fair (size : Z) (taken : Cell -> bool) (rnd : list Z) (c : Cell)
      (rest : list Z) :
  fair size rnd -> sample taken rnd = Ok (c, rest) ->
  on_grid size c /\ fair size rest.
Proof.
  unfold fair.
  induction rnd as [| x | x y rnd' IH] using rounds_ind; simpl; try discriminate.
  intros Hf; inversion Hf as [| ? ? Hx Hf']; inversion Hf' as [| ? ? Hy Hf'']; subst.
  destruct (taken (mkCell x y)).
  - apply IH; exact Hf''.
  - intros H; injection H as <- <-; split; [split; assumption | exact Hf''].
Qed.

Lemma stepA_food_fair (s : SnakeA.State) (e : SnakeA.Event) (rnd : list Z)
      (s' : SnakeA.State) (rnd' : list Z) :
  fair 20 rnd -> on_grid 20 (SnakeA.food s) ->
  SnakeA.step s e rnd = Ok (s', rnd') ->
  on_grid 20 (SnakeA.food s') /\ fair 20 rnd'.
Proof.
  intros Hfair Hfood Hstep.
  assert (Hfresh : forall r,
             (newFood <- SnakeA.randomFood SnakeA.START_SNAKE ;;
              ret (SnakeA.mkState SnakeA.START_SNAKE SnakeA.START_DIRECTION
                                  newFood r SnakeA.INITIAL_SPEED 0 false)) rnd =
             Ok (s', rnd') ->
             on_grid 20 (SnakeA.food s') /\ fair 20 rnd').
  { intros r; unfold bind, ret.
    destruct (SnakeA.randomFood _ rnd) as [[f r'] | |] eqn:Hs; try discriminate.
    intros H; injection H as <- <-.
    exact (sample_fair 20 _ rnd f r' Hfair Hs). }
  destruct e; simpl in Hstep;
    try (injection Hstep as <- <-; split; [| exact Hfair]).
  - unfold SnakeA.handleKey; destruct (SnakeA.keymap key); [| exact Hfood].
    destruct ((_ =? 0) && (_ =? 0)); exact Hfood.
  - destruct (tickA_cases s rnd s' rnd' Hstep)
      as [[-> ->] | [[-> ->] | [h [t [_ [_ [_ [_ [_ Hmove]]]]]]]]]; auto.
    destruct Hmove as [[_ [-> ->]] | [_ [f [Hs ->]]]]; auto.
    exact (sample_fair 20 _ rnd f rnd' Hfair Hs).
  - exact (Hfresh true Hstep).
  - exact Hfood.
  - unfold SnakeA.resume; destruct (negb _); exact Hfood.
  - exact (Hfresh true Hstep).
  - exact (Hfresh false Hstep).
  - exact Hfood.
  - exact Hfood.
Qed.

Lemma stepB_food_fair (s : SnakeB.State) (e : SnakeB.Event) (rnd : list Z)
      (s' : SnakeB.State) (rnd' : list Z) :
  fair 20 rnd -> on_grid 20 (SnakeB.food s) ->
  SnakeB.step s e rnd = Ok (s', rnd') ->
  on_grid 20 (SnakeB.food s') /\ fair 20 rnd'.
Proof.
  intros Hfair Hfood Hstep.
  destruct e; simpl in Hstep;
    try (injection Hstep as <- <-; split; [| exact Hfair]).
  - unfold SnakeB.handleKeyPress; destruct (String.eqb key " "); exact Hfood.
  - destruct (moveSnake_cases s rnd s' rnd' Hstep)
      as [[-> ->] | [[_ [-> ->]] | [h [t [_ [_ [_ [_ Hmove]]]]]]]]; auto.
    destruct Hmove as [[_ [-> ->]] | [_ [f [Hs ->]]]]; auto.
    exact (sample_fair 20 _ rnd f rnd' Hfair Hs).
  - simpl; unfold on_grid; simpl; lia.
  - unfold SnakeB.toggleWallMode; destruct (_ || _); exact Hfood.
Qed.

(** X14.  Whatever the events, when every draw of the supply is an integer of
    [0, 20), as [Math.floor(Math.random() * 20)] is, the food of a game
    played from the first render lies on the grid, in both variants. *)
Theorem food_always_on_grid :
  (forall rnd s0 rnd0 evs s rnd',
      fair 20 rnd -> SnakeA.init rnd = Ok (s0, rnd0) ->
      SnakeA.run s0 evs rnd0 = Ok (s, rnd') ->
      on_grid 20 (SnakeA.food s))
  /\
  (forall rnd evs s rnd',
      fair 20 rnd -> SnakeB.run SnakeB.init evs rnd = Ok (s, rnd') ->
      on_grid 20 (SnakeB.food s)).
Proof.
  split.
  - intros rnd s0 rnd0 evs s rnd' Hfair Hinit Hrun.
    assert (H0 : on_grid 20 (SnakeA.food s0) /\ fair 20 rnd0).
    { revert Hinit; unfold SnakeA.init, bind, ret.
      destruct (SnakeA.randomFood _ rnd) as [[f r] | |] eqn:Hs; try discriminate.
      intros H; injection H as <- <-.
      exact (sample_fair 20 _ rnd f r Hfair Hs). }
    clear Hinit Hfair; destruct H0 as [Hfood Hfair].
    revert s0 rnd0 Hfood Hfair Hrun.
    induction evs as [|e evs IH]; intros s0 rnd0 Hfood Hfair Hrun; simpl in Hrun.
    + injection Hrun as <- _; exact Hfood.
    + unfold bind in Hrun.
      destruct (SnakeA.step s0 e rnd0) as [[s1 rnd1] | |] eqn:Hstep;
        try discriminate.
      destruct (stepA_food_fair s0 e rnd0 s1 rnd1 Hfair Hfood Hstep).
      apply (IH s1 rnd1); assumption.
  - intros rnd evs s rnd' Hfair Hrun.
    assert (Hfood : on_grid 20 (SnakeB.food SnakeB.init))
      by (unfold on_grid; simpl; lia).
    revert Hfood Hfair Hrun; generalize SnakeB.init as s0; revert rnd.
    induction evs as [|e evs IH]; intros rnd0 s0 Hfood Hfair Hrun; simpl in Hrun.
    + injection Hrun as <- _; exact Hfood.
    + unfold bind in Hrun.
      destruct (SnakeB.step s0 e rnd0) as [[s1 rnd1] | |] eqn:Hstep;
        try discriminate.
      destruct (stepB_food_fair s0 e rnd0 s1 rnd1 Hfair Hfood Hstep).
      apply (IH rnd1 s1); assumption.
Qed.

(** A game of variant A that eats once and a game of variant B that eats
    once. *)
Lemma food_always_on_grid_witness :
  on_grid 20 (mkCell 2 2) /\ on_grid 20 (mkCell 3 3).
Proof.
  split.
  - apply (proj1 food_always_on_grid [15; 15; 11; 10; 2; 2]
             (SnakeA.mkState SnakeA.START_SNAKE SnakeA.START_DIRECTION
                             (mkCell 15 15) false 150 0 false)
             [11; 10; 2; 2] [SnakeA.Start; SnakeA.Tick; SnakeA.Tick]
             (SnakeA.mkState [mkCell 11 10; mkCell 10 10; mkCell 9 10; mkCell 8 10]
                             (mkCell 1 0) (mkCell 2 2) true 146 1 false) []).
    + unfold fair; repeat constructor; lia.
    + reflexivity.
    + reflexivity.
  - apply (proj2 food_always_on_grid [3; 3]
             [SnakeB.Key "ArrowRight"; SnakeB.Tick; SnakeB.Tick; SnakeB.Tick;
              SnakeB.Tick; SnakeB.Tick; SnakeB.Key "ArrowDown"; SnakeB.Tick;
              SnakeB.Tick; SnakeB.Tick; SnakeB.Tick; SnakeB.Tick]
             (SnakeB.mkState [mkCell 15 15; mkCell 15 14] (mkCell 0 1)
                             (mkCell 3 3) false 10 false true SnakeB.wall) []).
    + unfold fair; repeat constructor; lia.
    + reflexivity.
Defined.

(** ** Pausing *)

Lemma runA_paused (n : nat) (s : SnakeA.State) (evs : list SnakeA.Event)
      (rnd : list Z) :
  SnakeA.isRunning s = false ->
  SnakeA.run s (repeat SnakeA.Tick n ++ evs) rnd = SnakeA.run s evs rnd.
Proof.
  intros Hidle; induction n as [|n IH]; [reflexivity |].
  simpl; unfold bind; rewrite (tickA_idle s rnd Hidle); exact IH.
Qed.

(** X15.  Variant A: pausing a running game, letting any number of timer
    firings pass and resuming gives back the very state the game was
    paused in, and consumes no draw. *)
Theorem pause_then_resume_restores (s : SnakeA.State) (n : nat) (rnd : list Z) :
  SnakeA.isRunning s = true ->
  SnakeA.run s (SnakeA.Pause :: repeat SnakeA.Tick n ++ [SnakeA.Resume]) rnd =
    Ok (s, rnd).
Proof.
  intros Hrun; destruct (isRunning_flags s Hrun) as [Hr Hg].
  simpl; unfold bind, ret.
  rewrite runA_paused by reflexivity.
  simpl; unfold bind, ret, SnakeA.resume, SnakeA.pause; simpl.
  destruct s; simpl in *; subst; reflexivity.
Qed.

Lemma pause_then_resume_restores_witness :
  SnakeA.run
    (SnakeA.mkState [mkCell 11 10; mkCell 10 10; mkCell 9 10] (mkCell 1 0)
                    (mkCell 15 15) true 150 0 false)
    [SnakeA.Pause; SnakeA.Tick; SnakeA.Tick; SnakeA.Tick; SnakeA.Resume] [7] =
    Ok (SnakeA.mkState [mkCell 11 10; mkCell 10 10; mkCell 9 10] (mkCell 1 0)
                       (mkCell 15 15) true 150 0 false, [7]).
Proof.
  apply (pause_then_resume_restores
           (SnakeA.mkState [mkCell 11 10; mkCell 10 10; mkCell 9 10] (mkCell 1 0)
                           (mkCell 15 15) true 150 0 false) 3 [7]).
  reflexivity.
Defined.

Lemma runB_idle (n : nat) (s : SnakeB.State) (evs : list SnakeB.Event)
      (rnd : list Z) :
  SnakeB.status s <> SnakeB.Running ->
  SnakeB.run s (repeat SnakeB.Tick n ++ evs) rnd = SnakeB.run s evs rnd.
Proof.
  intros Hidle; induction n as [|n IH]; [reflexivity |].
  simpl; unfold bind; rewrite (moveSnake_idle s rnd Hidle); exact IH.
Qed.

(** X16.  Variant B: in a state that is not paused, the space key, any number
    of timer firings and the space key again give back the very state
    the first space key was pressed in, and consume no draw. *)
Theorem space_twice_restores (s : SnakeB.State) (n : nat) (rnd : list Z) :
  SnakeB.isPaused s = false ->
  SnakeB.run s (SnakeB.Key " " :: repeat SnakeB.Tick n ++ [SnakeB.Key " "]) rnd =
    Ok (s, rnd).
Proof.
  intros Hp.
  cbn [SnakeB.run SnakeB.step]; unfold bind at 1; unfold ret at 1.
  rewrite runB_idle.
  - destruct s as [sn d f go sc ip gs wm]; simpl in Hp; subst ip.
    destruct gs; reflexivity.
  - unfold SnakeB.status, SnakeB.handleKeyPress; simpl; rewrite Hp; simpl.
    destruct (SnakeB.gameStarted s), (SnakeB.gameOver s); discriminate.
Qed.

Lemma space_twice_restores_witness :
  SnakeB.run
    (SnakeB.mkState [mkCell 12 10] (mkCell 1 0) (mkCell 15 15) false 0 false
                    true SnakeB.wall)
    [SnakeB.Key " "; SnakeB.Tick; SnakeB.Tick; SnakeB.Key " "] [7] =
    Ok (SnakeB.mkState [mkCell 12 10] (mkCell 1 0) (mkCell 15 15) false 0 false
                       true SnakeB.wall, [7]).
Proof.
  apply (space_twice_restores
           (SnakeB.mkState [mkCell 12 10] (mkCell 1 0) (mkCell 15 15) false 0
                           false true SnakeB.wall) 2 [7]).
  reflexivity.
Defined.

(** ** The wall-mode buttons *)

(** X17.  Clicking a wall-mode button twice gives back the state of before the
    clicks, whatever the status. *)
Theorem toggleWallMode_twice (s : SnakeB.State) :
  SnakeB.toggleWallMode (SnakeB.toggleWallMode s) = s.
Proof.
  destruct s as [sn d f go sc ip gs wm]; unfold SnakeB.toggleWallMode; simpl.
  destruct gs, go, wm; reflexivity.
Qed.

(** X18.  The wall-mode buttons are rendered disabled exactly in the states in
    which their handler ignores the click. *)
Theorem wall_buttons_disabled_iff_ignored (s : SnakeB.State) :
  wallButtonsDisabled s = true <-> SnakeB.toggleWallMode s = s.
Proof.
  destruct s as [sn d f go sc ip gs wm].
  unfold wallButtonsDisabled, SnakeB.toggleWallMode; simpl.
  destruct gs, go, wm; simpl; split; intros H; try reflexivity;
    discriminate H.
Qed.

(** ** The two key filters *)

(** X19.  On a unit heading the two variants filter the arrow keys alike: the
    heading after an arrow key is the same in variant A, which tests the
    sums of the components, and in variant B, which tests one component
    of the current heading. *)
Theorem arrow_keys_filtered_alike (sA : SnakeA.State) (sB : SnakeB.State)
        (key : string) (d : Cell) :
  SnakeB.keyHeading key = Some d ->
  unit_heading (SnakeA.direction sA) ->
  SnakeA.direction sA = SnakeB.direction sB ->
  SnakeA.keymap key = Some d /\
  SnakeA.direction (SnakeA.handleKey sA key) =
    SnakeB.direction (SnakeB.handleKeyPress sB key).
Proof.
  intros Hkey Hu Hd.
  destruct sA as [snA dA fA rA spA scA goA], sB as [snB dB fB goB scB ipB gsB wmB].
  simpl in Hu, Hd; subst dB.
  destruct (keyHeading_arrow key d Hkey)
    as [[-> ->] | [[-> ->] | [[-> ->] | [-> ->]]]];
    destruct Hu as [-> | [-> | [-> | ->]]];
    split; reflexivity.
Qed.

Lemma arrow_keys_filtered_alike_witness :
  SnakeA.direction
    (SnakeA.handleKey
       (SnakeA.mkState SnakeA.START_SNAKE (mkCell 0 1) (mkCell 15 15) true 150 0
                       false) "ArrowUp") =
    SnakeB.direction
      (SnakeB.handleKeyPress
         (SnakeB.mkState [mkCell 10 10] (mkCell 0 1) (mkCell 15 15) false 0
                         false true SnakeB.wall) "ArrowUp").
Proof.
  apply (arrow_keys_filtered_alike
           (SnakeA.mkState SnakeA.START_SNAKE (mkCell 0 1) (mkCell 15 15) true
                           150 0 false)
           (SnakeB.mkState [mkCell 10 10] (mkCell 0 1) (mkCell 15 15) false 0
                           false true SnakeB.wall)
           "ArrowUp"%string (mkCell 0 (-1)) eq_refl).
  - unfold unit_heading; auto.
  - reflexivity.
Defined.

(** ** The grid drawn by variant A *)

Lemma distinct_NoDup (l : list Cell) : distinct l = true -> NoDup l.
Proof.
  induction l as [|c l IH]; simpl; [constructor |].
  intros H; apply andb_true_iff in H; destruct H as [Hc Hl].
  apply negb_true_iff, has_not_In in Hc.
  constructor; [exact Hc | apply IH; exact Hl].
Qed.

Lemma gridCells_NoDup : NoDup (gridCells 20).
Proof. apply distinct_NoDup; vm_compute; reflexivity. Qed.

Lemma map_flat_map_rows {A B C : Type} (f : B -> C) (g : A -> list B)
      (l : list A) :
  map f (flat_map g l) = flat_map (fun a => map f (g a)) l.
Proof.
  induction l as [|a l IH]; [reflexivity |].
  simpl; rewrite map_app, IH; reflexivity.
Qed.

(** The render helper makes one tile per cell of the grid, row by row. *)
Lemma cells_tiles (s : SnakeA.State) :
  cells s = map (fun c => tileAt s (cx c) (cy c)) (gridCells SnakeA.BOARD_SIZE).
Proof.
  unfold cells, gridCells; rewrite map_flat_map_rows.
  apply flat_map_ext; intros y; rewrite map_map; reflexivity.
Qed.

Lemma filter_map_length {A B : Type} (p : B -> bool) (f : A -> B) (l : list A) :
  length (filter p (map f l)) = length (filter (fun a => p (f a)) l).
Proof.
  induction l as [|a l IH]; [reflexivity |].
  simpl; destruct (p (f a)); simpl; rewrite IH; reflexivity.
Qed.

(** Among distinct cells that include the distinct cells of [l], as many
    are cells of [l] as [l] has cells. *)
Lemma count_members (grid l : list Cell) :
  NoDup grid -> NoDup l -> incl l grid ->
  length (filter (fun c => existsb (cell_eqb c) l) grid) = length l.
Proof.
  intros Hg Hl Hincl; apply Permutation_length, NoDup_Permutation.
  - apply NoDup_filter; exact Hg.
  - exact Hl.
  - intros c; rewrite filter_In, has_In; split.
    + intros [_ H]; exact H.
    + intros H; split; [apply Hincl; exact H | exact H].
Qed.

Lemma tileAt_isSnake (s : SnakeA.State) (c : Cell) :
  isSnake (tileAt s (cx c) (cy c)) = existsb (cell_eqb c) (SnakeA.snake s).
Proof.
  unfold tileAt; simpl; rewrite <- keys_has; destruct c; reflexivity.
Qed.

Lemma tileAt_isFood (s : SnakeA.State) (c : Cell) :
  isFood (tileAt s (cx c) (cy c)) = existsb (cell_eqb c) [SnakeA.food s].
Proof.
  unfold tileAt, cell_eqb; simpl.
  rewrite orb_false_r, (Z.eqb_sym (cx c)), (Z.eqb_sym (cy c)); reflexivity.
Qed.

Lemma tileAt_isHead (s : SnakeA.State) (h : Cell) (t : list Cell) (c : Cell) :
  SnakeA.snake s = h :: t ->
  isHead (tileAt s (cx c) (cy c)) = existsb (cell_eqb c) [h].
Proof.
  intros Hsnake; unfold tileAt, cell_eqb; simpl; rewrite Hsnake.
  rewrite orb_false_r, (Z.eqb_sym (cx c)), (Z.eqb_sym (cy c)); reflexivity.
Qed.

(** X20.  What the grid of variant A shows in a state a game can reach whose
    food is on the grid: 400 tiles; as many snake tiles as the snake has
    cells; one head tile, which is a snake tile; one food tile, which is
    no snake tile. *)
Theorem cells_show_the_game (s : SnakeA.State) :
  reachableA s -> on_grid 20 (SnakeA.food s) ->
  length (cells s) = 400%nat /\
  length (filter isSnake (cells s)) = length (SnakeA.snake s) /\
  length (filter isHead (cells s)) = 1%nat /\
  length (filter isFood (cells s)) = 1%nat /\
  (forall tile, In tile (cells s) -> isHead tile = true -> isSnake tile = true) /\
  (forall tile, In tile (cells s) -> isFood tile = true -> isSnake tile = false).
Proof.
  intros H Hfood; apply reachableA_wellformed in H.
  destruct H as [_ [Hnd [Hgrid [Hnot [Hsc [Hlen _]]]]]].
  destruct (SnakeA.snake s) as [|h t] eqn:Hsnake; [simpl in Hlen; lia |].
  rewrite <- Hsnake in *.
  assert (Hincl : incl (SnakeA.snake s) (gridCells 20)).
  { intros c Hc; apply gridCells_In.
    rewrite Forall_forall in Hgrid; apply Hgrid; exact Hc. }
  rewrite cells_tiles; change SnakeA.BOARD_SIZE with 20.
  split; [rewrite length_map; reflexivity |].
  split.
  { rewrite filter_map_length.
    erewrite filter_ext by (intros c; apply tileAt_isSnake).
    apply count_members; [apply gridCells_NoDup | exact Hnd | exact Hincl]. }
  split.
  { rewrite filter_map_length.
    erewrite filter_ext by (intros c; apply (tileAt_isHead s h t c Hsnake)).
    apply (count_members (gridCells 20) [h]).
    - apply gridCells_NoDup.
    - repeat constructor; simpl; tauto.
    - intros c [<- | []]; apply Hincl; rewrite Hsnake; left; reflexivity. }
  split.
  { rewrite filter_map_length.
    erewrite filter_ext by (intros c; apply tileAt_isFood).
    apply (count_members (gridCells 20) [SnakeA.food s]).
    - apply gridCells_NoDup.
    - repeat constructor; simpl; tauto.
    - intros c [<- | []]; apply gridCells_In; exact Hfood. }
  split.
  - intros tile Hin; apply in_map_iff in Hin; destruct Hin as [c [<- _]].
    rewrite (tileAt_isHead s h t c Hsnake), tileAt_isSnake, Hsnake; simpl.
    rewrite orb_false_r; intros ->; reflexivity.
  - intros tile Hin; apply in_map_iff in Hin; destruct Hin as [c [<- _]].
    rewrite tileAt_isFood, tileAt_isSnake; simpl; rewrite orb_false_r.
    intros Hc; apply cell_eqb_eq in Hc; subst c.
    apply has_not_In; exact Hnot.
Qed.

(** The started game with its food at (15,15). *)
Lemma cells_show_the_game_witness :
  length (filter isSnake
            (cells (SnakeA.mkState SnakeA.START_SNAKE SnakeA.START_DIRECTION
                                   (mkCell 15 15) true 150 0 false))) = 3%nat.
Proof.
  apply (cells_show_the_game
           (SnakeA.mkState SnakeA.START_SNAKE SnakeA.START_DIRECTION
                           (mkCell 15 15) true 150 0 false)).
  - apply (reachableA_run [SnakeA.Start]
             (SnakeA.mkState SnakeA.START_SNAKE SnakeA.START_DIRECTION
                             (mkCell 4 4) false 150 0 false) [15; 15] _ []).
    + apply (reachA_init [4; 4; 15; 15] _ [15; 15]); reflexivity.
    + reflexivity.
  - unfold on_grid; simpl; lia.
Defined.

(** ** The speed buttons *)

(** X21.  Variant A: Faster then Slower gives back the state when the delay is
    at least 60 and at most 1000, and Slower then Faster gives it back
    when the delay is at least 40 and at most 980; nearer to a bound the
    clamp keeps the pair from undoing itself. *)
Theorem speed_buttons_undo_each_other (s : SnakeA.State) :
  (60 <= SnakeA.speed s <= 1000 -> SnakeA.slower (SnakeA.faster s) = s) /\
  (40 <= SnakeA.speed s <= 980 -> SnakeA.faster (SnakeA.slower s) = s) /\
  (40 <= SnakeA.speed s < 60 ->
   SnakeA.speed (SnakeA.slower (SnakeA.faster s)) = 60) /\
  (980 < SnakeA.speed s <= 1000 ->
   SnakeA.speed (SnakeA.faster (SnakeA.slower s)) = 980).
Proof.
  destruct s as [sn d f r sp sc go]; unfold SnakeA.slower, SnakeA.faster; simpl.
  repeat split; intros H; try f_equal; lia.
Qed.

Lemma speed_buttons_undo_each_other_witness :
  SnakeA.slower
    (SnakeA.faster
       (SnakeA.mkState SnakeA.START_SNAKE (mkCell 1 0) (mkCell 15 15) true 150 0
                       false)) =
    SnakeA.mkState SnakeA.START_SNAKE (mkCell 1 0) (mkCell 15 15) true 150 0 false
  /\
  SnakeA.speed
    (SnakeA.slower
       (SnakeA.faster
          (SnakeA.mkState SnakeA.START_SNAKE (mkCell 1 0) (mkCell 15 15) true 46
                          26 false))) = 60.
Proof.
  split.
  - apply (proj1 (speed_buttons_undo_each_other
                    (SnakeA.mkState SnakeA.START_SNAKE (mkCell 1 0) (mkCell 15 15)
                                    true 150 0 false))).
    simpl; lia.
  - apply (proj1 (proj2 (proj2 (speed_buttons_undo_each_other
                    (SnakeA.mkState SnakeA.START_SNAKE (mkCell 1 0) (mkCell 15 15)
                                    true 46 26 false))))).
    simpl; lia.
Defined.

(** ** The snake as a chain *)

Lemma removelast_linked (step : Cell -> Cell -> Prop) (l : list Cell) :
  linked step l -> linked step (removelast l).
Proof.
  induction l as [|a l IH]; [auto |].
  destruct l as [|b l]; [auto |].
  destruct l as [|c l]; [simpl; auto |].
  change (removelast (a :: b :: c :: l)) with (a :: b :: removelast (c :: l)).
  change (removelast (b :: c :: l)) with (b :: removelast (c :: l)) in IH.
  intros [Hab Hrest]; split; [exact Hab | apply IH; exact Hrest].
Qed.

Lemma START_SNAKE_linked : linked stepsTo SnakeA.START_SNAKE.
Proof.
  simpl; repeat split; exists (mkCell 1 0); (split; [unfold unit_heading; auto |]);
    reflexivity.
Qed.

Lemma stepA_linked (s : SnakeA.State) (e : SnakeA.Event) (rnd : list Z)
      (s' : SnakeA.State) (rnd' : list Z) :
  wellformedA s -> linked stepsTo (SnakeA.snake s) ->
  SnakeA.step s e rnd = Ok (s', rnd') -> linked stepsTo (SnakeA.snake s').
Proof.
  intros [Hu _] Hl Hstep.
  assert (Hfresh : forall r,
             (newFood <- SnakeA.randomFood SnakeA.START_SNAKE ;;
              ret (SnakeA.mkState SnakeA.START_SNAKE SnakeA.START_DIRECTION
                                  newFood r SnakeA.INITIAL_SPEED 0 false)) rnd =
             Ok (s', rnd') ->
             linked stepsTo (SnakeA.snake s')).
  { intros r; unfold bind, ret.
    destruct (SnakeA.randomFood _ rnd) as [[f r'] | |]; try discriminate.
    intros H; injection H as <- _; exact START_SNAKE_linked. }
  destruct e; simpl in Hstep; try (injection Hstep as <- _).
  - unfold SnakeA.handleKey; destruct (SnakeA.keymap key); [| exact Hl].
    destruct ((_ =? 0) && (_ =? 0)); exact Hl.
  - destruct (tickA_cases s rnd s' rnd' Hstep)
      as [[-> _] | [[-> _] | [h [t [Hsnake [_ [_ [_ [_ Hmove]]]]]]]]]; auto.
    assert (Hnew : linked stepsTo (cell_add h (SnakeA.direction s) :: SnakeA.snake s)).
    { rewrite Hsnake; split; [| rewrite <- Hsnake; exact Hl].
      exists (SnakeA.direction s); auto. }
    destruct Hmove as [[_ [_ ->]] | [_ [f [_ ->]]]]; simpl SnakeA.snake.
    + apply removelast_linked in Hnew; rewrite Hsnake in *; exact Hnew.
    + exact Hnew.
  - exact (Hfresh true Hstep).
  - exact Hl.
  - unfold SnakeA.resume; destruct (negb _); exact Hl.
  - exact (Hfresh true Hstep).
  - exact (Hfresh false Hstep).
  - exact Hl.
  - exact Hl.
Qed.

Lemma stepB_linked (s : SnakeB.State) (e : SnakeB.Event) (rnd : list Z)
      (s' : SnakeB.State) (rnd' : list Z) :
  wellformedB s -> linked (stepsAround 20) (SnakeB.snake s) ->
  SnakeB.step s e rnd = Ok (s', rnd') ->
  linked (stepsAround 20) (SnakeB.snake s').
Proof.
  intros [Hu [h0 [t0 [Hsnake0 Hh0]]]] Hl Hstep.
  destruct e; simpl in Hstep; try (injection Hstep as <- _).
  - unfold SnakeB.handleKeyPress; destruct (String.eqb key " "); exact Hl.
  - destruct (moveSnake_cases s rnd s' rnd' Hstep)
      as [[-> _] | [[_ [-> _]] | [h [t [Hsnake [_ [Hgrid [_ Hmove]]]]]]]]; auto.
    assert (Hnew : linked (stepsAround 20)
                          (SnakeB.candidate s h :: SnakeB.snake s)).
    { rewrite Hsnake; split; [| rewrite <- Hsnake; exact Hl].
      exists (SnakeB.direction s); split; [exact Hu |].
      rewrite Hsnake in Hsnake0; injection Hsnake0 as <- <-.
      apply outside_false in Hh0; destruct Hh0 as [Hx Hy].
      unfold SnakeB.GRID_SIZE in *.
      assert (Hcx : -1 <= cx h + cx (SnakeB.direction s) <= 20)
        by (destruct Hu as [E | [E | [E | E]]]; rewrite E; simpl; lia).
      assert (Hcy : -1 <= cy h + cy (SnakeB.direction s) <= 20)
        by (destruct Hu as [E | [E | [E | E]]]; rewrite E; simpl; lia).
      revert Hgrid; unfold SnakeB.candidate, on_grid, cell_add.
      destruct (SnakeB.wallMode s); simpl.
      - intros [Hgx Hgy]; rewrite !Z.mod_small by assumption; reflexivity.
      - intros _; rewrite !wrap_mod by assumption; reflexivity. }
    destruct Hmove as [[_ [_ ->]] | [_ [f [_ ->]]]]; simpl SnakeB.snake.
    + apply removelast_linked in Hnew; rewrite Hsnake in *; exact Hnew.
    + exact Hnew.
  - simpl; exact I.
  - unfold SnakeB.toggleWallMode; destruct (_ || _); exact Hl.
Qed.

(** X22.  In every state a game can reach, the snake is a chain.  In variant A
    each cell is one unit step ahead of the cell behind it.  In variant B
    each cell is one unit step ahead of the cell behind it on the grid
    closed into a torus: the same, except across an edge the snake has
    passed through. *)
Theorem snake_is_a_chain :
  (forall s, reachableA s -> linked stepsTo (SnakeA.snake s)) /\
  (forall s, SnakeB.reachable s -> linked (stepsAround 20) (SnakeB.snake s)).
Proof.
  split.
  - induction 1 as [rnd s rnd' Hinit | s e rnd s' rnd' Hreach IH Hstep].
    + revert Hinit; unfold SnakeA.init, bind, ret.
      destruct (SnakeA.randomFood _ rnd) as [[f r] | |]; try discriminate.
      intros H; injection H as <- _; exact START_SNAKE_linked.
    + exact (stepA_linked s e rnd s' rnd' (reachableA_wellformed s Hreach) IH Hstep).
  - induction 1 as [| s e rnd s' rnd' Hreach IH Hstep].
    + simpl; exact I.
    + exact (stepB_linked s e rnd s' rnd' (reachableB_wellformed s Hreach) IH Hstep).
Qed.

(** The snake of variant A after a turn, and the snake of variant B lying
    across the right edge in pass-through mode. *)
Lemma snake_is_a_chain_witness :
  linked stepsTo [mkCell 10 9; mkCell 10 10; mkCell 9 10] /\
  linked (stepsAround 20) [mkCell 0 10; mkCell 19 10].
Proof.
  split.
  - apply (proj1 snake_is_a_chain
             (SnakeA.mkState [mkCell 10 9; mkCell 10 10; mkCell 9 10]
                             (mkCell 0 (-1)) (mkCell 15 15) true 150 0 false)).
    apply (reachableA_run
             [SnakeA.Start; SnakeA.Tick; SnakeA.Key "w"; SnakeA.Tick]
             (SnakeA.mkState SnakeA.START_SNAKE SnakeA.START_DIRECTION
                             (mkCell 4 4) false 150 0 false) [15; 15] _ []).
    + apply (reachA_init [4; 4; 15; 15] _ [15; 15]); reflexivity.
    + reflexivity.
  - apply (proj2 snake_is_a_chain
             (SnakeB.mkState [mkCell 0 10; mkCell 19 10] (mkCell 1 0)
                             (mkCell 3 3) false 10 false true
                             SnakeB.passthrough)).
    apply (reachableB_run
             [SnakeB.ToggleWall; SnakeB.Key "ArrowDown"; SnakeB.Tick;
              SnakeB.Tick; SnakeB.Tick; SnakeB.Tick; SnakeB.Tick;
              SnakeB.Key "ArrowRight"; SnakeB.Tick; SnakeB.Tick; SnakeB.Tick;
              SnakeB.Tick; SnakeB.Tick;
              SnakeB.Key "ArrowUp"; SnakeB.Tick; SnakeB.Tick; SnakeB.Tick;
              SnakeB.Tick; SnakeB.Tick;
              SnakeB.Key "ArrowRight"; SnakeB.Tick; SnakeB.Tick; SnakeB.Tick;
              SnakeB.Tick; SnakeB.Tick]
             SnakeB.init [3; 3] _ [] SnakeB.reach_init).
    reflexivity.
Defined.
